(** * cursed: a curses matrix display

    A shallow embedding of the matrix display header (the variant with the
    box-drawing style) and the properties of its alignment helpers, colour
    scopes and matrix layout.

    The header only ever writes to the terminal: every curses call it makes
    is recorded, in order, in the list of calls a computation carries.
    Assertions are compiled in, and an exception that leaves a block runs
    the destructors of the block's objects. *)

From Stdlib Require Import ZArith List Lia Bool.
From Stdlib Require String Ascii.
Import String.StringSyntax.
Import ListNotations.
Delimit Scope string_scope with string.
Local Open Scope Z_scope.

(** ** Machine integers

    The data model is LP64: [int] is 32 bits, two's complement, and [size_t]
    is 64 bits.  A value of either type is a [Z]; every conversion and every
    operation that can leave the type's range has its wrap-around written
    out. *)

Definition INT_MAX : Z := 2 ^ 31 - 1.
Definition INT_MIN : Z := - 2 ^ 31.
Definition SIZE_MAX : Z := 2 ^ 64 - 1.

Definition is_int (z : Z) : Prop := INT_MIN <= z <= INT_MAX.

(** Conversion to [int] (of a [size_t], or of an [int] result out of range). *)
Definition to_int (z : Z) : Z := (z + 2 ^ 31) mod 2 ^ 32 - 2 ^ 31.

(** Conversion to [size_t] (of an [int], or of a [size_t] result out of range). *)
Definition to_size_t (z : Z) : Z := z mod 2 ^ 64.

Definition int_add (a b : Z) : Z := to_int (a + b).
Definition int_sub (a b : Z) : Z := to_int (a - b).
Definition int_mul (a b : Z) : Z := to_int (a * b).
(** [/] on [int] truncates towards zero. *)
Definition int_div (a b : Z) : Z := to_int (Z.quot a b).

Definition size_add (a b : Z) : Z := to_size_t (a + b).
Definition size_sub (a b : Z) : Z := to_size_t (a - b).
Definition size_div (a b : Z) : Z := a / b.

(** ** Wide strings

    A [wchar_t] is its code; a [std::wstring] is the list of its
    characters. *)

Definition wchar_t : Type := Z.
Definition wstring : Type := list wchar_t.

Definition NUL : wchar_t := 0.
Definition newline : wchar_t := 10.
Definition blank : wchar_t := 32.

(** A wide literal whose characters are all ASCII, [L"..."]. *)
Definition L (s : String.string) : wstring :=
  map (fun a => Z.of_N (Ascii.N_of_ascii a)) (String.list_ascii_of_string s).
Arguments L s%_string.

(** [content.length()], a [size_t]. *)
Definition wlength (s : wstring) : Z := Z.of_nat (length s).

(** [s.c_str()] as the C functions read it: the characters before the
    first NUL. *)
Fixpoint c_str (s : wstring) : wstring :=
  match s with
  | [] => []
  | c :: s' => if c =? NUL then [] else c :: c_str s'
  end.

(** ** Limits of the standard library

    [max_size()] of [std::wstring] and of [std::vector<Cell>] are fixed by the
    library implementation; a count above it makes the filling constructor
    throw [std::length_error]. *)

Record Limits : Type := {
  wstring_max_size : Z;
  vector_max_size : Z
}.

(** What an LP64 implementation guarantees: any non-negative [int] is an
    admissible count, and a wide string fills at most a quarter of the
    address space. *)
Definition lp64 (lim : Limits) : Prop :=
  INT_MAX <= wstring_max_size lim <= 2 ^ 62 /\
  INT_MAX <= vector_max_size lim.

(** ** Outcomes

    A call returns a value, or throws [std::length_error], or stops the
    program at a failed [assert]. *)

Inductive outcome (A : Type) : Type :=
| Done (a : A)
| Throw
| Abort.
Arguments Done {A} a.
Arguments Throw {A}.
Arguments Abort {A}.

Definition obind {A B : Type} (o : outcome A) (f : A -> outcome B) : outcome B :=
  match o with
  | Done a => f a
  | Throw => Throw
  | Abort => Abort
  end.

Declare Scope outcome_scope.
Delimit Scope outcome_scope with outcome.
Notation "x <~ o ;; k" := (obind o (fun x => k))
  (at level 61, o at next level, right associativity) : outcome_scope.

(** ** Curses calls *)

(** The value of an [int] object: a number, or indeterminate when the object
    was never initialised. *)
Inductive int_value : Type :=
| Int (z : Z)
| Indeterminate.

(** The attributes the header passes to [attron] and [attroff]. *)
Inductive attr_t : Type :=
| COLOR_PAIR (n : int_value)
| A_BOLD.

(** [curses.h]: the colours. *)
Definition COLOR_BLACK : Z := 0.
Definition COLOR_RED : Z := 1.
Definition COLOR_GREEN : Z := 2.

(** One call into curses with its arguments as written at the call;
    [init_pair (pair, f, b)] takes the pair, its foreground [f] and its
    background [b], in this order. *)
Inductive call : Type :=
| start_color
| init_pair (pair f b : Z)
| attron (a : attr_t)
| attroff (a : attr_t)
| addwstr (s : wstring)
| addch (c : Z).

(** ** Computations that write to the terminal

    The calls made so far, and how the computation ended.  The calls made
    before a throw or a failed assertion stay made. *)

Definition M (A : Type) : Type := (list call * outcome A)%type.

Definition ret {A : Type} (a : A) : M A := ([], Done a).

Definition bind {A B : Type} (m : M A) (f : A -> M B) : M B :=
  match m with
  | (cs, Done a) => let (cs', r) := f a in (cs ++ cs', r)
  | (cs, Throw) => (cs, Throw)
  | (cs, Abort) => (cs, Abort)
  end.

(** A pure computation inside a writing one. *)
Definition lift {A : Type} (o : outcome A) : M A := ([], o).

(** One call into curses. *)
Definition emit (c : call) : M unit := ([c], Done tt).

(** [assert(b)], in a build where assertions are compiled in. *)
Definition assert (b : bool) : M unit := ([], if b then Done tt else Abort).

(** A block whose local object has a destructor: [cleanup] runs when [body]
    returns and when an exception leaves it; a failed assertion stops the
    program with no destructor run. *)
Definition scope_exit {A : Type} (body : M A) (cleanup : M unit) : M A :=
  match body with
  | (cs, Done a) => let (cs', r) := cleanup in (cs ++ cs', obind r (fun _ => Done a))
  | (cs, Throw) => let (cs', _) := cleanup in (cs ++ cs', Throw)
  | (cs, Abort) => (cs, Abort)
  end.

Declare Scope M_scope.
Delimit Scope M_scope with M.
Notation "x <- m ;; k" := (bind m (fun x => k))
  (at level 61, m at next level, right associativity) : M_scope.
Notation "m ;; k" := (bind m (fun _ => k))
  (at level 61, right associativity) : M_scope.

Definition calls {A : Type} (m : M A) : list call := fst m.
Definition result {A : Type} (m : M A) : outcome A := snd m.

(** A [for] loop over [0 .. n-1] whose body does not read its counter. *)
Fixpoint times (n : nat) (body : M unit) : M unit :=
  match n with
  | O => ret tt
  | S n' => bind body (fun _ => times n' body)
  end.

(** ** The header *)

(** [enum class Aligned]. *)
Module Aligned.
Inductive t : Type := right | left | center.
End Aligned.

(** [struct Cell]. *)
Record Cell : Type := {
  content : wstring;
  color_code : Z
}.

(** [Cell(s, c = 0)]. *)
Definition Cell_ctor (s : wstring) (c : Z) : Cell :=
  {| content := s; color_code := c |}.

(** [struct BoxStyle], with the default member initialisers of its three
    parts. *)
Module BoxStyle.
Record Corners : Type := {
  top_left : wchar_t;
  top_right : wchar_t;
  bottom_left : wchar_t;
  bottom_right : wchar_t
}.
Record Intersections : Type := {
  top : wchar_t;
  bottom : wchar_t;
  left : wchar_t;
  right : wchar_t;
  center : wchar_t
}.
Record Borders : Type := {
  horizontal : wchar_t;
  vertical : wchar_t
}.
Record t : Type := {
  corners : Corners;
  intersections : Intersections;
  borders : Borders
}.
(** The heavy box-drawing characters U+250F, U+2513, U+2517, U+251B;
    U+2533, U+253B, U+2523, U+252B, U+254B; U+2501, U+2503. *)
Definition default : t := {|
  corners := {| top_left := 0x250F; top_right := 0x2513;
                bottom_left := 0x2517; bottom_right := 0x251B |};
  intersections := {| top := 0x2533; bottom := 0x253B; left := 0x2523;
                      right := 0x252B; center := 0x254B |};
  borders := {| horizontal := 0x2501; vertical := 0x2503 |}
|}.
End BoxStyle.

(** [struct MatrixStyle]. *)
Record MatrixStyle : Type := {
  cell_width : Z;
  cell_height : Z;
  box_style : BoxStyle.t
}.

(** [MatrixStyle(cell_width_, cell_height_)]. *)
Definition MatrixStyle_ctor (cell_width_ cell_height_ : Z) : MatrixStyle :=
  {| cell_width := cell_width_; cell_height := cell_height_;
     box_style := BoxStyle.default |}.

(** [class ColorScheme]. *)
Record ColorScheme : Type := {
  scheme : list Z
}.

(** The loop of the constructor, [index] being the counter it increments. *)
Fixpoint ColorScheme_loop (index : Z) (colors : list Z) : M unit :=
  match colors with
  | [] => ret tt
  | color :: rest =>
      (emit (init_pair index COLOR_BLACK color);;
       ColorScheme_loop (int_add index 1) rest)%M
  end.

Definition ColorScheme_ctor (scheme_ : list Z) : M ColorScheme :=
  (emit start_color;;
   ColorScheme_loop 0 scheme_;;
   ret {| scheme := scheme_ |})%M.

(** [class Color].  Its member [n] has no initialiser and the constructor
    assigns nothing to it (the constructor's parameter hides it). *)
Record Color : Type := {
  Color_n : int_value
}.

Definition Color_ctor (n : Z) : M Color :=
  (emit (attron (COLOR_PAIR (Int n)));;
   emit (attron A_BOLD);;
   ret {| Color_n := Indeterminate |})%M.

Definition Color_dtor (this : Color) : M unit :=
  (emit (attroff (COLOR_PAIR (Color_n this)));;
   emit (attroff A_BOLD))%M.

Definition end_line : M unit := emit (addch newline).

Section Header.

Variable lim : Limits.

(** [std::wstring(n, c)]; [n] is the count as the constructor receives it,
    a [size_t]. *)
Definition wstring_fill (n : Z) (c : wchar_t) : outcome wstring :=
  if n <=? wstring_max_size lim then Done (repeat c (Z.to_nat n)) else Throw.

(** [std::vector<T>(n, x)]; [n] is the count as the constructor receives
    it, a [size_t]. *)
Definition vector_fill {T : Type} (n : Z) (x : T) : outcome (list T) :=
  if n <=? vector_max_size lim then Done (repeat x (Z.to_nat n)) else Throw.

Definition n_chars (n : Z) (c : wchar_t) : M unit :=
  (s <- lift (wstring_fill (to_size_t n) c);;
   emit (addwstr (c_str s)))%M.

Definition addwch (character : wchar_t) : M unit := n_chars 1 character.

Definition n_strings (n : Z) (s : wstring) : M unit :=
  times (Z.to_nat n) (emit (addwstr (c_str s))).

(** [width] is the [int] the callers pass; it meets [content.length()], a
    [size_t], and is converted to it. *)
Definition positioned (content : wstring) (width : Z) (offset : Z)
  : outcome wstring :=
  if to_size_t width <=? wlength content then Done content
  else
    (left <~ wstring_fill (to_size_t offset) blank;;
     right <~ wstring_fill
                (size_sub (to_size_t width)
                          (size_add (wlength content) (to_size_t offset)))
                blank;;
     Done (left ++ content ++ right))%outcome.

(** [offset] is a [size_t]; [positioned] takes it as an [int]. *)
Definition centered (content : wstring) (width : Z) : outcome wstring :=
  let offset := size_div (size_sub (to_size_t width) (wlength content)) 2 in
  positioned content width (to_int offset).

Definition aligned_right (content : wstring) (width : Z) : outcome wstring :=
  let offset := size_sub (to_size_t width) (wlength content) in
  positioned content width (to_int offset).

Definition aligned_left (content : wstring) (width : Z) : outcome wstring :=
  positioned content width 0.

(** No case of the [switch] ends in [break]: control falls from each case
    into the next, every assignment to [s] being made in turn. *)
Definition printline (content : wstring) (width : Z) (alignment : Aligned.t)
  : M unit :=
  (s <- lift
         (match alignment with
          | Aligned.right =>
              (_ <~ aligned_right content width;;
               _ <~ aligned_left content width;;
               centered content width)%outcome
          | Aligned.left =>
              (_ <~ aligned_left content width;;
               centered content width)%outcome
          | Aligned.center =>
              centered content width
          end);;
   emit (addwstr (c_str s)))%M.

(** *** [class MatrixDisplay] *)

Variable style : MatrixStyle.

(** [data[0]] is read once the assertion has passed. *)
Definition n_rows (data : list (list Cell)) : M Z :=
  (assert (negb (Nat.eqb (length data) 0));;
   ret (to_int (Z.of_nat (length (nth 0%nat data [])))))%M.

Definition width_in_chars (data : list (list Cell)) : M Z :=
  (n <- n_rows data;;
   ret (int_mul (int_add (cell_width style) 1) n))%M.

(** The loop of [value_row]; [scoped] lives until the end of its
    iteration. *)
Fixpoint value_row_loop (intersection : wchar_t) (first : bool)
  (row : list Cell) : M unit :=
  match row with
  | [] => ret tt
  | cell :: rest =>
      ((if first then ret tt else addwch intersection);;
       (scoped <- Color_ctor (color_code cell);;
        scope_exit
          (printline (content cell) (cell_width style) Aligned.center)
          (Color_dtor scoped));;
       value_row_loop intersection false rest)%M
  end.

Definition value_row (row : list Cell) (left intersection right : wchar_t)
  : M unit :=
  (addwch left;;
   value_row_loop intersection true row;;
   addwch right;;
   end_line)%M.

Definition sep_row (n : Z) (left plain intersection right : wchar_t)
  : M unit :=
  (s <- lift (wstring_fill (to_size_t (cell_width style)) plain);;
   sep <- lift (vector_fill (to_size_t n) (Cell_ctor s 0));;
   value_row sep left intersection right)%M.

Definition top_row (n : Z) : M unit :=
  let box := box_style style in
  sep_row n (BoxStyle.top_left (BoxStyle.corners box))
    (BoxStyle.horizontal (BoxStyle.borders box))
    (BoxStyle.top (BoxStyle.intersections box))
    (BoxStyle.top_right (BoxStyle.corners box)).

Definition bottom_row (n : Z) : M unit :=
  let box := box_style style in
  sep_row n (BoxStyle.bottom_left (BoxStyle.corners box))
    (BoxStyle.horizontal (BoxStyle.borders box))
    (BoxStyle.bottom (BoxStyle.intersections box))
    (BoxStyle.bottom_right (BoxStyle.corners box)).

Definition middle_row (n : Z) : M unit :=
  let box := box_style style in
  sep_row n (BoxStyle.left (BoxStyle.intersections box))
    (BoxStyle.horizontal (BoxStyle.borders box))
    (BoxStyle.center (BoxStyle.intersections box))
    (BoxStyle.right (BoxStyle.intersections box)).

(** The first loop of [values]: every cell of the copied row gets
    [cell_width] blanks as its content. *)
Fixpoint padding_loop (padding_row : list Cell) : outcome (list Cell) :=
  match padding_row with
  | [] => Done []
  | cell :: rest =>
      (s <~ wstring_fill (to_size_t (cell_width style)) blank;;
       rest' <~ padding_loop rest;;
       Done ({| content := s; color_code := color_code cell |} :: rest'))%outcome
  end.

Definition line_height : Z := 1.

Definition values (row : list Cell) : M unit :=
  let box := box_style style in
  let vertical := BoxStyle.vertical (BoxStyle.borders box) in
  (padding_row <- lift (padding_loop row);;
   let top_pad := int_div (int_sub (cell_height style) line_height) 2 in
   times (Z.to_nat top_pad)
     (value_row padding_row vertical vertical vertical);;
   value_row row vertical vertical vertical;;
   let bottom_pad :=
     int_sub (cell_height style) (int_add top_pad line_height) in
   times (Z.to_nat bottom_pad)
     (value_row padding_row vertical vertical vertical))%M.

Definition sep_col : M unit :=
  addwch (BoxStyle.vertical (BoxStyle.borders (box_style style))).

(** The loop of [print]. *)
Fixpoint print_loop (n : Z) (first : bool) (data : list (list Cell))
  : M unit :=
  match data with
  | [] => ret tt
  | row :: rest =>
      ((if first then ret tt else middle_row n);;
       values row;;
       print_loop n false rest)%M
  end.

Definition print (data : list (list Cell)) : M unit :=
  (n <- n_rows data;;
   top_row n;;
   print_loop n true data;;
   bottom_row n)%M.

End Header.

(** ** What the terminal shows *)

(** The characters a call writes. *)
Definition written (c : call) : wstring :=
  match c with
  | addwstr s => s
  | addch ch => [ch]
  | _ => []
  end.

Definition screen (cs : list call) : wstring := flat_map written cs.

(** The lines of a text: a newline ends a line; characters after the last
    newline form a last line. *)
Fixpoint lines_from (cur : wstring) (s : wstring) : list wstring :=
  match s with
  | [] => match cur with [] => [] | _ => [cur] end
  | c :: s' =>
      if c =? newline then cur :: lines_from [] s'
      else lines_from (cur ++ [c]) s'
  end.

Definition lines (s : wstring) : list wstring := lines_from [] s.

(** Texts that hold no newline. *)
Definition one_line (s : wstring) : Prop := ~ In newline s.

(** Cells side by side, [sep] between neighbours. *)
Definition joined (sep : wstring) (cells : list wstring) : wstring :=
  match cells with
  | [] => []
  | c :: rest => c ++ flat_map (fun x => sep ++ x) rest
  end.

(** A line of the grid: the cells between [left] and [right], [inter]
    between neighbours. *)
Definition value_line (left inter right : wstring) (cells : list wstring)
  : wstring :=
  left ++ joined inter cells ++ right.

(** [m] returns, having written [text]. *)
Definition shows (m : M unit) (text : wstring) : Prop :=
  result m = Done tt /\ screen (calls m) = text.

(** Every cell of [row] can be centred in a cell of [style], to the text at
    its place in [texts]. *)
Definition centered_row (lim : Limits) (style : MatrixStyle)
  (row : list Cell) (texts : list wstring) : Prop :=
  Forall2
    (fun cell s => centered lim (content cell) (cell_width style) = Done s)
    row texts.

(** Colour bookkeeping: the [attron] and the [attroff] calls. *)
Definition is_attron (c : call) : bool :=
  match c with attron _ => true | _ => false end.
Definition is_attroff (c : call) : bool :=
  match c with attroff _ => true | _ => false end.

Definition activations (cs : list call) : nat := length (filter is_attron cs).
Definition deactivations (cs : list call) : nat := length (filter is_attroff cs).

(** A call that touches no attribute. *)
Definition plain (c : call) : bool := negb (is_attron c) && negb (is_attroff c).

(** Calls in which every [attron] has its [attroff]: a pair and bold are
    activated, calls that touch no attribute follow, a pair and bold are
    deactivated.  Which pair is deactivated is left open: it need not be
    the pair activated. *)
Inductive scopes_closed : list call -> Prop :=
| closed_nil : scopes_closed []
| closed_plain (c : call) (cs : list call) :
    plain c = true -> scopes_closed cs -> scopes_closed (c :: cs)
| closed_scope (on off : int_value) (body cs : list call) :
    forallb plain body = true -> scopes_closed cs ->
    scopes_closed
      ([attron (COLOR_PAIR on); attron A_BOLD] ++ body ++
       [attroff (COLOR_PAIR off); attroff A_BOLD] ++ cs).

(** [m] touches no attribute and does not stop the program. *)
Definition quiet {A : Type} (m : M A) : Prop :=
  result m <> Abort /\ forallb plain (calls m) = true.

(** The calls of [m] pair every [attron] with an [attroff], and [m] does
    not stop the program. *)
Definition tidy {A : Type} (m : M A) : Prop :=
  result m <> Abort /\ scopes_closed (calls m).

(** An implementation to run examples on: the limits of libstdc++ on
    x86-64. *)
Definition libstdcxx : Limits :=
  {| wstring_max_size := 2 ^ 61 - 1; vector_max_size := (2 ^ 63 - 1) / 40 |}.

(** ** The header's other variant

    [matrix_display.hpp] is the same display with three separator strings in
    place of the box style.  [ColorScheme], [Color], [Cell], [n_chars],
    [n_strings], [end_line] and [n_rows] are as above; its alignment helpers
    write their line instead of returning it, and take the width as a
    [size_t]. *)

Module Simple.

(** [struct MatrixStyle]. *)
Record MatrixStyle : Type := {
  cell_width : Z;
  cell_height : Z;
  row_sep : wstring;
  col_sep : wstring;
  corner_sep : wstring
}.

(** [MatrixStyle(cell_width_, cell_height_, row_sep_, col_sep_,
    corner_sep_)]. *)
Definition MatrixStyle_ctor (cell_width_ cell_height_ : Z)
  (row_sep_ col_sep_ corner_sep_ : wstring) : MatrixStyle :=
  {| cell_width := cell_width_; cell_height := cell_height_;
     row_sep := row_sep_; col_sep := col_sep_; corner_sep := corner_sep_ |}.

Section Header.

Variable lim : Limits.

(** [width] is a [size_t], [offset] an [int]. *)
Definition positioned (content : wstring) (width : Z) (offset : Z) : M unit :=
  if width <=? wlength content then emit (addwstr (c_str content))
  else
    (left <- lift (wstring_fill lim (to_size_t offset) blank);;
     right <- lift
                (wstring_fill lim
                   (size_sub width
                      (size_add (wlength content) (to_size_t offset)))
                   blank);;
     let line := left ++ content ++ right in
     emit (addwstr (c_str line)))%M.

Definition centered (content : wstring) (width : Z) : M unit :=
  let offset := size_div (size_sub width (wlength content)) 2 in
  positioned content width (to_int offset).

Definition aligned_right (content : wstring) (width : Z) : M unit :=
  let offset := size_sub width (wlength content) in
  positioned content width (to_int offset).

Definition aligned_left (content : wstring) (width : Z) : M unit :=
  positioned content width 0.

(** *** [class MatrixDisplay] *)

Variable style : MatrixStyle.

Definition width_in_chars (data : list (list Cell)) : M Z :=
  (n <- n_rows data;;
   ret (int_mul (int_add (cell_width style) 1) n))%M.

Definition corner : M unit := emit (addwstr (c_str (corner_sep style))).

Definition sep_col : M unit := emit (addwstr (c_str (col_sep style))).

Definition sep_row (n : Z) : M unit :=
  (corner;;
   times (Z.to_nat n)
     (n_strings (cell_width style) (row_sep style);;
      corner);;
   end_line)%M.

(** The loop of [value]; [scoped] lives in the inner block, which ends
    before the separator is written.  The cell width, an [int], becomes the
    [size_t] that [centered] takes. *)
Fixpoint value_loop (row : list Cell) : M unit :=
  match row with
  | [] => ret tt
  | cell :: rest =>
      ((scoped <- Color_ctor (color_code cell);;
        scope_exit
          (centered (content cell) (to_size_t (cell_width style)))
          (Color_dtor scoped));;
       sep_col;;
       value_loop rest)%M
  end.

Definition value (row : list Cell) : M unit :=
  (sep_col;;
   value_loop row;;
   end_line)%M.

(** The padding row is the row with every content emptied. *)
Definition value_padding (height : Z) (row : list Cell) : M unit :=
  let padding :=
    map (fun cell => {| content := []; color_code := color_code cell |})
      row in
  times (Z.to_nat height) (value padding).

Definition values (row : list Cell) : M unit :=
  let previous_pad := int_div (int_sub (cell_height style) line_height) 2 in
  (value_padding previous_pad row;;
   value row;;
   let next_pad :=
     int_sub (cell_height style) (int_add previous_pad line_height) in
   value_padding next_pad row)%M.

(** The loop of [print]. *)
Fixpoint print_loop (n : Z) (data : list (list Cell)) : M unit :=
  match data with
  | [] => ret tt
  | row :: rest =>
      (values row;;
       sep_row n;;
       print_loop n rest)%M
  end.

Definition print (data : list (list Cell)) : M unit :=
  (n <- n_rows data;;
   sep_row n;;
   print_loop n data)%M.

End Header.

End Simple.

(** ** More vocabulary *)

(** Groups one after the other, [sep] between neighbours. *)
Definition interleaved {A : Type} (sep : list A) (groups : list (list A))
  : list A :=
  match groups with
  | [] => []
  | g :: rest => g ++ flat_map (fun x => sep ++ x) rest
  end.

(** The text whose lines are [ls], each ended by a newline. *)
Definition unlines (ls : list wstring) : wstring :=
  flat_map (fun l => l ++ [newline]) ls.

(** The calls of one cell: its colour scope around its text. *)
Definition cell_calls (color : Z) (text : wstring) : list call :=
  [attron (COLOR_PAIR (Int color)); attron A_BOLD;
   addwstr (c_str text);
   attroff (COLOR_PAIR Indeterminate); attroff A_BOLD].

(** A border line of the default box style: [n] runs of [cw] horizontal
    glyphs, [inter] between neighbouring runs, from [left] to [right]. *)
Definition border_line (left inter right : wchar_t) (cw : Z) (n : nat)
  : wstring :=
  value_line [left] [inter] [right]
    (repeat
       (repeat (BoxStyle.horizontal (BoxStyle.borders BoxStyle.default))
          (Z.to_nat cw)) n).

(** The lines of one row of cells centred to [texts], in cells [cw] wide and
    [ch] high of the default box style. *)
Definition row_lines (cw ch : Z) (row : list Cell) (texts : list wstring)
  : list wstring :=
  let v := [BoxStyle.vertical (BoxStyle.borders BoxStyle.default)] in
  let blank_line :=
    value_line v v v (map (fun _ => repeat blank (Z.to_nat cw)) row) in
  repeat blank_line (Z.to_nat ((ch - 1) / 2)) ++
  [value_line v v v (map c_str texts)] ++
  repeat blank_line (Z.to_nat (ch - 1 - (ch - 1) / 2)).

(** The lines of a whole grid of the default box style: the top border,
    the lines [values] writes for each row with a middle border between
    consecutive rows, the bottom border; the borders have as many runs as
    the first row has cells. *)
Definition grid_lines (lim : Limits) (cw ch : Z) (data : list (list Cell))
  : list wstring :=
  let box := BoxStyle.default in
  let n := length (nth 0%nat data []) in
  [border_line (BoxStyle.top_left (BoxStyle.corners box))
     (BoxStyle.top (BoxStyle.intersections box))
     (BoxStyle.top_right (BoxStyle.corners box)) cw n] ++
  interleaved
    [border_line (BoxStyle.left (BoxStyle.intersections box))
       (BoxStyle.center (BoxStyle.intersections box))
       (BoxStyle.right (BoxStyle.intersections box)) cw n]
    (map (fun row =>
            lines (screen (calls (values lim (MatrixStyle_ctor cw ch) row))))
       data) ++
  [border_line (BoxStyle.bottom_left (BoxStyle.corners box))
     (BoxStyle.bottom (BoxStyle.intersections box))
     (BoxStyle.bottom_right (BoxStyle.corners box)) cw n].

(** A cell whose content fits its cell and is plain text: no longer than
    [cw], on one line, without a NUL. *)
Definition fits (cw : Z) (cell : Cell) : Prop :=
  wlength (content cell) <= cw /\ one_line (content cell) /\
  ~ In NUL (content cell).


(** The box style whose corners and intersections are all the glyph [c]. *)
Definition uniform_box (c h v : wchar_t) : BoxStyle.t := {|
  BoxStyle.corners :=
    {| BoxStyle.top_left := c; BoxStyle.top_right := c;
       BoxStyle.bottom_left := c; BoxStyle.bottom_right := c |};
  BoxStyle.intersections :=
    {| BoxStyle.top := c; BoxStyle.bottom := c; BoxStyle.left := c;
       BoxStyle.right := c; BoxStyle.center := c |};
  BoxStyle.borders := {| BoxStyle.horizontal := h; BoxStyle.vertical := v |}
|}.

(** The calls of a cell whose text cannot be built: its colour scope, opened
    and closed around nothing. *)
Definition empty_scope (color : Z) : list call :=
  [attron (COLOR_PAIR (Int color)); attron A_BOLD;
   attroff (COLOR_PAIR Indeterminate); attroff A_BOLD].

(** A call other than the deactivation of a colour pair given by its
    number. *)
Definition spares_pairs (c : call) : bool :=
  match c with
  | attroff (COLOR_PAIR (Int _)) => false
  | _ => true
  end.

(** Every call [m] makes passes the test [p]. *)
Definition every_call {A : Type} (p : call -> bool) (m : M A) : Prop :=
  forallb p (calls m) = true.


(** * Properties *)

(** ** Machine integers inside their range *)

Lemma to_size_t_small (z : Z) : 0 <= z <= SIZE_MAX -> to_size_t z = z.
Proof. unfold to_size_t, SIZE_MAX. intros H. apply Z.mod_small. lia. Qed.

Lemma to_int_small (z : Z) : is_int z -> to_int z = z.
Proof.
  unfold to_int, is_int, INT_MIN, INT_MAX. intros H.
  rewrite Z.mod_small; lia.
Qed.

Lemma wlength_nonneg (s : wstring) : 0 <= wlength s.
Proof. unfold wlength. lia. Qed.

Lemma wlength_app (s1 s2 : wstring) :
  wlength (s1 ++ s2) = wlength s1 + wlength s2.
Proof. unfold wlength. rewrite length_app. lia. Qed.

Lemma wlength_repeat (c : wchar_t) (n : Z) :
  0 <= n -> wlength (repeat c (Z.to_nat n)) = n.
Proof. unfold wlength. intros H. rewrite repeat_length. lia. Qed.

Ltac unfold_ints :=
  unfold size_sub, size_add, size_div, int_add, int_sub, int_mul, int_div,
    to_size_t, to_int, is_int, INT_MAX, INT_MIN, SIZE_MAX in *.

(** Linear arithmetic over the conversions. *)
Ltac wrap_lia := unfold_ints; Z.div_mod_to_equations; lia.

Lemma lp64_libstdcxx : lp64 libstdcxx.
Proof. unfold lp64, libstdcxx, INT_MAX. cbn. lia. Qed.

(** ** The alignment helpers *)

Section Alignment.

Variable lim : Limits.
Hypothesis Hlim : lp64 lim.

Lemma wstring_fill_int (n : Z) (c : wchar_t) :
  0 <= n <= INT_MAX -> wstring_fill lim n c = Done (repeat c (Z.to_nat n)).
Proof.
  intros Hn. unfold wstring_fill. destruct Hlim as [[Hlo _] _].
  destruct (Z.leb_spec n (wstring_max_size lim)); [reflexivity | lia].
Qed.

Lemma positioned_overflow (content : wstring) (width offset : Z) :
  0 <= width <= INT_MAX -> width <= wlength content ->
  positioned lim content width offset = Done content.
Proof.
  intros Hw Hlen. unfold positioned.
  rewrite to_size_t_small by (unfold INT_MAX, SIZE_MAX in *; lia).
  destruct (Z.leb_spec width (wlength content)); [reflexivity | lia].
Qed.

Lemma positioned_padded (content : wstring) (width offset : Z) :
  0 <= offset -> offset + wlength content <= width -> width <= INT_MAX ->
  wlength content < width ->
  positioned lim content width offset =
  Done (repeat blank (Z.to_nat offset) ++ content ++
        repeat blank (Z.to_nat (width - (wlength content + offset)))).
Proof.
  intros Ho Hfit Hw Hlen. pose proof (wlength_nonneg content) as Hc.
  unfold positioned.
  rewrite !to_size_t_small by (unfold INT_MAX, SIZE_MAX in *; lia).
  destruct (Z.leb_spec width (wlength content)); [lia |].
  rewrite wstring_fill_int by lia. cbn [obind].
  replace (size_sub width (size_add (wlength content) offset))
    with (width - (wlength content + offset)) by wrap_lia.
  rewrite wstring_fill_int by lia. reflexivity.
Qed.

Lemma centered_padded (content : wstring) (width : Z) :
  wlength content < width -> width <= INT_MAX ->
  centered lim content width =
  Done (repeat blank (Z.to_nat ((width - wlength content) / 2)) ++ content ++
        repeat blank
          (Z.to_nat (width - wlength content - (width - wlength content) / 2))).
Proof.
  intros Hlen Hw. pose proof (wlength_nonneg content) as Hc.
  unfold centered.
  replace (to_int (size_div (size_sub (to_size_t width) (wlength content)) 2))
    with ((width - wlength content) / 2) by wrap_lia.
  rewrite positioned_padded
    by (try (unfold INT_MAX in *); Z.div_mod_to_equations; lia).
  do 4 f_equal. lia.
Qed.

(** The helpers throw or return; they never stop the program. *)
Lemma positioned_no_abort (content : wstring) (width offset : Z) :
  positioned lim content width offset <> Abort.
Proof.
  unfold positioned, wstring_fill.
  repeat match goal with
         | |- context [if ?b then _ else _] => destruct b; cbn [obind]
         end; discriminate.
Qed.

(** What [positioned] returns is [content] between blanks. *)
Lemma positioned_shape (content : wstring) (width offset : Z) (s : wstring) :
  positioned lim content width offset = Done s ->
  exists l r : nat, s = repeat blank l ++ content ++ repeat blank r.
Proof.
  unfold positioned, wstring_fill.
  destruct (to_size_t width <=? wlength content).
  - intros [= <-]. exists 0%nat, 0%nat. cbn. now rewrite app_nil_r.
  - repeat match goal with
           | |- context [if ?b then _ else _] => destruct b; cbn [obind]
           end; try discriminate.
    intros [= <-]. eauto.
Qed.

(** When [centered] returns, so do the other two helpers: a width for
    which one of them throws is negative, and then all three throw. *)
Lemma centered_returns (content : wstring) (width : Z) (s : wstring) :
  is_int width -> wlength content <= wstring_max_size lim ->
  centered lim content width = Done s ->
  (exists l, aligned_left lim content width = Done l) /\
  (exists r, aligned_right lim content width = Done r).
Proof.
  intros Hw Hmax. pose proof (wlength_nonneg content) as Hc.
  destruct Hlim as [[Hlo Hhi] _].
  unfold centered, aligned_left, aligned_right, positioned, wstring_fill.
  destruct (Z.leb_spec (to_size_t width) (wlength content)) as [Hov | Hov].
  - intros _. split; eexists; reflexivity.
  - repeat match goal with
           | |- context [if ?a <=? ?b then _ else _] =>
               destruct (Z.leb_spec a b); cbn [obind]
           end;
      try discriminate; intros _;
      try (split; eexists; reflexivity);
      exfalso; wrap_lia.
Qed.

End Alignment.

(** C2. [positioned] never truncates: a content at least as long as a
    (non-negative) width comes back unchanged, whatever the offset; and when
    the offset and the content fit in the width, [offset + length <= width],
    a shorter content comes back as [offset] blanks, the content, and
    [width - (length + offset)] blanks, [width] characters in all. *)
Theorem positioned_pads_or_returns_content (lim : Limits) (content : wstring)
  (width offset : Z) :
  lp64 lim -> 0 <= width <= INT_MAX ->
  (width <= wlength content ->
   positioned lim content width offset = Done content) /\
  (0 <= offset -> offset + wlength content <= width ->
   wlength content < width ->
   positioned lim content width offset =
     Done (repeat blank (Z.to_nat offset) ++ content ++
           repeat blank (Z.to_nat (width - (wlength content + offset)))) /\
   wlength (repeat blank (Z.to_nat offset) ++ content ++
            repeat blank (Z.to_nat (width - (wlength content + offset))))
   = width).
Proof.
  intros Hlim Hw. pose proof (wlength_nonneg content) as Hc. split.
  - intros Hlen. apply positioned_overflow; lia.
  - intros Ho Hfit Hlen. split.
    + apply positioned_padded; [exact Hlim | lia ..].
    + rewrite !wlength_app, !wlength_repeat by lia. lia.
Qed.

Lemma positioned_pads_or_returns_content_witness :
  (0 <= 6 <= INT_MAX /\ 0 <= 1 /\ 1 + wlength (L "AB") <= 6) /\
  positioned libstdcxx (L "AB") 6 1 = Done (L " AB   ") /\
  positioned libstdcxx (L "ABCDEFGH") 6 1 = Done (L "ABCDEFGH").
Proof.
  split; [unfold INT_MAX; cbn; lia |]. split.
  - refine (proj1 (proj2 (positioned_pads_or_returns_content
                            libstdcxx (L "AB") 6 1 lp64_libstdcxx _) _ _ _));
      unfold INT_MAX; cbn; lia.
  - refine (proj1 (positioned_pads_or_returns_content
                     libstdcxx (L "ABCDEFGH") 6 1 lp64_libstdcxx _) _);
      unfold INT_MAX; cbn; lia.
Defined.

(** C3. For a content shorter than the width, [centered] puts it at offset
    [(width - length) / 2], rounded down: the blanks on the right are as many
    as on the left, or one more.  [centered("AB", 6)] has two blanks on each
    side, [centered("ABC", 6)] one on the left and two on the right. *)
Theorem centered_floor_offset (lim : Limits) :
  lp64 lim ->
  (forall (content : wstring) (width : Z),
     wlength content < width -> width <= INT_MAX ->
     let left := (width - wlength content) / 2 in
     let right := width - wlength content - left in
     centered lim content width =
       Done (repeat blank (Z.to_nat left) ++ content ++
             repeat blank (Z.to_nat right)) /\
     left <= right <= left + 1) /\
  centered lim (L "AB") 6 = Done (L "  AB  ") /\
  centered lim (L "ABC") 6 = Done (L " ABC  ").
Proof.
  intros Hlim. split; [| split].
  - intros content width Hlen Hw left right. split.
    + now apply centered_padded.
    + subst left right. Z.div_mod_to_equations. lia.
  - rewrite centered_padded by (assumption || (unfold INT_MAX; cbn; lia)).
    reflexivity.
  - rewrite centered_padded by (assumption || (unfold INT_MAX; cbn; lia)).
    reflexivity.
Qed.

Lemma centered_floor_offset_witness :
  centered libstdcxx (L "ABCD") 9 = Done (L "  ABCD   ") /\
  centered libstdcxx (L "ABC") 6 = Done (L " ABC  ").
Proof.
  split.
  - refine (proj1 (proj1 (centered_floor_offset libstdcxx lp64_libstdcxx)
                     (L "ABCD") 9 _ _));
      unfold INT_MAX; cbn; lia.
  - exact (proj2 (proj2 (centered_floor_offset libstdcxx lp64_libstdcxx))).
Defined.

(** C10. Whatever the alignment asked for, [printline] writes what
    [centered] returns: the cases of its switch fall through, so the
    assignment of the centred string is always the last one made. *)
Theorem printline_always_centered (lim : Limits) (content : wstring)
  (width : Z) (alignment : Aligned.t) :
  lp64 lim -> is_int width -> wlength content <= wstring_max_size lim ->
  printline lim content width alignment =
  (s <- lift (centered lim content width);; emit (addwstr (c_str s)))%M.
Proof.
  intros Hlim Hw Hmax. unfold printline. f_equal. f_equal.
  destruct (centered lim content width) as [s | |] eqn:Hc.
  - destruct (centered_returns lim Hlim content width s Hw Hmax Hc)
      as [[l Hl] [r Hr]].
    destruct alignment; rewrite ?Hr, ?Hl; reflexivity.
  - pose proof (positioned_no_abort lim content width 0) as Hl.
    pose proof (positioned_no_abort lim content width
                  (to_int (size_sub (to_size_t width) (wlength content))))
      as Hr.
    fold (aligned_left lim content width) in Hl.
    fold (aligned_right lim content width) in Hr.
    destruct alignment;
      destruct (aligned_right lim content width);
      destruct (aligned_left lim content width);
      try reflexivity; contradiction.
  - now apply positioned_no_abort in Hc.
Qed.

Lemma printline_always_centered_witness :
  (is_int 6 /\ wlength (L "AB") <= wstring_max_size libstdcxx) /\
  printline libstdcxx (L "AB") 6 Aligned.right
  = ([addwstr (L "  AB  ")], Done tt) /\
  printline libstdcxx (L "AB") 6 Aligned.left
  = ([addwstr (L "  AB  ")], Done tt).
Proof.
  split; [unfold is_int, INT_MIN, INT_MAX; cbn; lia |]. split.
  - refine (eq_trans (printline_always_centered libstdcxx (L "AB") 6
                        Aligned.right lp64_libstdcxx _ _) _);
      [unfold is_int, INT_MIN, INT_MAX; lia | cbn; lia | reflexivity].
  - refine (eq_trans (printline_always_centered libstdcxx (L "AB") 6
                        Aligned.left lp64_libstdcxx _ _) _);
      [unfold is_int, INT_MIN, INT_MAX; lia | cbn; lia | reflexivity].
Defined.

(** ** Sequencing *)

Lemma bind_lift_Done {A B : Type} (a : A) (f : A -> M B) :
  bind (lift (Done a)) f = f a.
Proof. unfold bind, lift. destruct (f a). reflexivity. Qed.

Lemma bind_ret {A B : Type} (a : A) (f : A -> M B) : bind (ret a) f = f a.
Proof. apply bind_lift_Done. Qed.

Lemma bind_emit {B : Type} (c : call) (f : unit -> M B) :
  bind (emit c) f = (c :: calls (f tt), result (f tt)).
Proof. unfold bind, emit, calls, result. now destruct (f tt). Qed.

Lemma n_rows_cons (row : list Cell) (rest : list (list Cell)) :
  n_rows (row :: rest) = ret (to_int (Z.of_nat (length row))).
Proof. reflexivity. Qed.

(** ** What a computation shows *)

Lemma screen_app (cs cs' : list call) :
  screen (cs ++ cs') = screen cs ++ screen cs'.
Proof. unfold screen. apply flat_map_app. Qed.

Lemma shows_ret : shows (ret tt) [].
Proof. split; reflexivity. Qed.

Lemma shows_emit (c : call) : shows (emit c) (written c).
Proof. split; [reflexivity | apply app_nil_r]. Qed.

Lemma shows_bind (m : M unit) (k : unit -> M unit) (t1 t2 : wstring) :
  shows m t1 -> shows (k tt) t2 -> shows (bind m k) (t1 ++ t2).
Proof.
  destruct m as [cs [[] | |]]; intros [Hr Hs]; try discriminate.
  cbn in Hs. subst t1. intros [Hr' Hs']. unfold bind.
  destruct (k tt) as [cs' r']. cbn in *. subst.
  split; [reflexivity | apply screen_app].
Qed.

Lemma shows_times (n : nat) (m : M unit) (t : wstring) :
  shows m t -> shows (times n m) (concat (repeat t n)).
Proof.
  intros Hm. induction n as [| n IH]; cbn [times repeat concat].
  - apply shows_ret.
  - apply shows_bind; assumption.
Qed.

(** The colour calls around a body write nothing. *)
Lemma shows_scope (n : Z) (body : M unit) (t : wstring) :
  shows body t ->
  shows (bind (Color_ctor n)
           (fun scoped => scope_exit body (Color_dtor scoped))) t.
Proof.
  destruct body as [cs [[] | |]]; intros [Hr Hs]; try discriminate.
  cbn in Hs. subst t. split; [reflexivity |].
  cbn. rewrite !screen_app. cbn. now rewrite !app_nil_r.
Qed.

(** ** Lines of a text *)

Lemma lines_from_line (l rest cur : wstring) :
  one_line l ->
  lines_from cur (l ++ newline :: rest) = (cur ++ l) :: lines_from [] rest.
Proof.
  revert cur. induction l as [| c l IH]; intros cur Hl; cbn [app lines_from].
  - rewrite Z.eqb_refl, app_nil_r. reflexivity.
  - destruct (Z.eqb_spec c newline) as [-> | _].
    + exfalso. apply Hl. now left.
    + rewrite IH by (intros Hin; apply Hl; now right).
      now rewrite <- app_assoc.
Qed.

Lemma lines_line (l rest : wstring) :
  one_line l -> lines ((l ++ [newline]) ++ rest) = l :: lines rest.
Proof.
  intros Hl. unfold lines. rewrite <- app_assoc. cbn [app].
  now rewrite lines_from_line.
Qed.

Lemma lines_repeat (l rest : wstring) (n : nat) :
  one_line l ->
  lines (concat (repeat (l ++ [newline]) n) ++ rest) = repeat l n ++ lines rest.
Proof.
  intros Hl. induction n as [| n IH]; cbn [repeat concat app].
  - reflexivity.
  - rewrite <- app_assoc, lines_line, IH by assumption. reflexivity.
Qed.

Lemma one_line_app (s1 s2 : wstring) :
  one_line s1 -> one_line s2 -> one_line (s1 ++ s2).
Proof. unfold one_line. intros H1 H2 Hin. apply in_app_or in Hin. tauto. Qed.

Lemma one_line_repeat (c : wchar_t) (n : nat) :
  c <> newline -> one_line (repeat c n).
Proof. intros Hc Hin. apply repeat_spec in Hin. congruence. Qed.

Lemma one_line_c_str (s : wstring) : one_line s -> one_line (c_str s).
Proof.
  induction s as [| c s IH]; intros Hs; cbn [c_str].
  - exact Hs.
  - destruct (c =? NUL); [intros [] |].
    intros [Heq | Hin].
    + apply Hs. now left.
    + apply IH; [| exact Hin]. intros H. apply Hs. now right.
Qed.

Lemma one_line_joined (sep : wstring) (cells : list wstring) :
  one_line sep -> Forall one_line cells -> one_line (joined sep cells).
Proof.
  intros Hsep Hcells. destruct Hcells as [| c cells Hc Hrest]; cbn [joined].
  - intros [].
  - apply one_line_app; [exact Hc |].
    induction Hrest as [| d cells Hd _ IH]; cbn [flat_map].
    + intros [].
    + repeat apply one_line_app; assumption.
Qed.

Lemma one_line_value_line (left inter right : wstring)
  (cells : list wstring) :
  one_line left -> one_line inter -> one_line right ->
  Forall one_line cells ->
  one_line (value_line left inter right cells).
Proof.
  intros. unfold value_line.
  repeat apply one_line_app; auto using one_line_joined.
Qed.

Lemma c_str_repeat (c : wchar_t) (n : nat) :
  c <> NUL -> c_str (repeat c n) = repeat c n.
Proof.
  intros Hc. induction n as [| n IH]; cbn [repeat c_str]; [reflexivity |].
  destruct (Z.eqb_spec c NUL); [contradiction | now rewrite IH].
Qed.

(** ** The layout of a row *)

Section Layout.

Variable lim : Limits.
Hypothesis Hlim : lp64 lim.

Lemma shows_addwch (c : wchar_t) : shows (addwch lim c) (c_str [c]).
Proof.
  unfold addwch, n_chars.
  rewrite (to_size_t_small 1) by (unfold SIZE_MAX; lia).
  rewrite (wstring_fill_int lim Hlim) by (unfold INT_MAX; lia).
  rewrite bind_lift_Done. apply (shows_emit (addwstr _)).
Qed.

Lemma shows_end_line : shows end_line [newline].
Proof. apply (shows_emit (addch newline)). Qed.

Lemma shows_printline (content : wstring) (width : Z) (s : wstring) :
  centered lim content width = Done s ->
  shows (printline lim content width Aligned.center) (c_str s).
Proof.
  intros Hc. unfold printline. rewrite Hc, bind_lift_Done.
  apply (shows_emit (addwstr _)).
Qed.

Lemma centered_one_line (content : wstring) (width : Z) (s : wstring) :
  one_line content -> centered lim content width = Done s -> one_line s.
Proof.
  intros Hc Hs. apply positioned_shape in Hs as (l & r & ->).
  repeat apply one_line_app;
    auto using one_line_repeat; apply one_line_repeat; discriminate.
Qed.

Variable style : MatrixStyle.

Lemma shows_value_row_loop (inter : wchar_t) (row : list Cell)
  (texts : list wstring) :
  centered_row lim style row texts ->
  shows (value_row_loop lim style inter false row)
    (flat_map (fun x => c_str [inter] ++ x) (map c_str texts)) /\
  shows (value_row_loop lim style inter true row)
    (joined (c_str [inter]) (map c_str texts)).
Proof.
  induction 1 as [| cell s row texts Hc Hrow [IH _]];
    cbn [value_row_loop map flat_map joined].
  - split; apply shows_ret.
  - assert (Hcell :
      shows (bind (Color_ctor (color_code cell))
               (fun scoped =>
                  scope_exit
                    (printline lim (content cell) (cell_width style)
                       Aligned.center)
                    (Color_dtor scoped))) (c_str s))
      by (apply shows_scope, shows_printline, Hc).
    split.
    + rewrite <- app_assoc.
      apply shows_bind; [apply shows_addwch |].
      apply shows_bind; assumption.
    + rewrite bind_ret. apply shows_bind; assumption.
Qed.

Lemma shows_value_row (row : list Cell) (texts : list wstring)
  (left inter right : wchar_t) :
  centered_row lim style row texts ->
  shows (value_row lim style row left inter right)
    (value_line (c_str [left]) (c_str [inter]) (c_str [right])
       (map c_str texts) ++ [newline]).
Proof.
  intros Hrow. unfold value_row, value_line. rewrite <- !app_assoc.
  apply shows_bind; [apply shows_addwch |].
  apply shows_bind; [apply (shows_value_row_loop inter row texts Hrow) |].
  apply shows_bind; [apply shows_addwch | apply shows_end_line].
Qed.

Lemma centered_row_one_line (row : list Cell) (texts : list wstring) :
  centered_row lim style row texts ->
  Forall (fun cell => one_line (content cell)) row ->
  Forall one_line (map c_str texts).
Proof.
  induction 1 as [| cell s row texts Hc _ IH]; intros Hrow; cbn [map].
  - constructor.
  - inversion Hrow; subst. constructor; [| auto].
    eapply one_line_c_str, centered_one_line; eassumption.
Qed.

Hypothesis Hcw : 0 <= cell_width style <= INT_MAX.

(** A content as wide as the cell is printed as it is. *)
Lemma centered_full (content : wstring) :
  wlength content = cell_width style ->
  centered lim content (cell_width style) = Done content.
Proof.
  intros Hlen. unfold centered. apply positioned_overflow; lia.
Qed.

(** In a cell of non-negative width every content can be centred. *)
Lemma centered_total (content : wstring) :
  exists s, centered lim content (cell_width style) = Done s.
Proof.
  destruct (Z.le_gt_cases (cell_width style) (wlength content)).
  - eexists. unfold centered. apply positioned_overflow; lia.
  - eexists. apply (centered_padded lim Hlim); lia.
Qed.

Lemma centered_row_total (row : list Cell) :
  exists texts, centered_row lim style row texts.
Proof.
  induction row as [| cell row [texts IH]].
  - exists []. constructor.
  - destruct (centered_total (content cell)) as [s Hs].
    exists (s :: texts). now constructor.
Qed.

Lemma wstring_fill_width (c : wchar_t) :
  wstring_fill lim (to_size_t (cell_width style)) c =
  Done (repeat c (Z.to_nat (cell_width style))).
Proof.
  rewrite to_size_t_small by (unfold INT_MAX, SIZE_MAX in *; lia).
  now apply wstring_fill_int.
Qed.

Lemma centered_row_repeat (cell : Cell) (k : nat) :
  wlength (content cell) = cell_width style ->
  centered_row lim style (repeat cell k) (repeat (content cell) k).
Proof.
  intros Hlen. induction k as [| k IH]; cbn [repeat]; constructor;
    [| exact IH].
  now apply centered_full.
Qed.

(** A border row: [n] runs of [cell_width] copies of [plain]. *)
Lemma shows_sep_row (n : Z) (left plain inter right : wchar_t) :
  0 <= n <= INT_MAX ->
  shows (sep_row lim style n left plain inter right)
    (value_line (c_str [left]) (c_str [inter]) (c_str [right])
       (repeat (c_str (repeat plain (Z.to_nat (cell_width style))))
          (Z.to_nat n))
     ++ [newline]).
Proof.
  intros Hn. unfold sep_row.
  rewrite wstring_fill_width, bind_lift_Done.
  unfold vector_fill.
  rewrite to_size_t_small by (unfold INT_MAX, SIZE_MAX in *; lia).
  destruct Hlim as [_ Hvec].
  destruct (Z.leb_spec n (vector_max_size lim)); [| lia].
  rewrite bind_lift_Done, <- (map_repeat _ _ c_str).
  apply shows_value_row.
  apply (centered_row_repeat (Cell_ctor _ 0)). cbn [content Cell_ctor].
  apply wlength_repeat. lia.
Qed.

Lemma padding_loop_blanks (row : list Cell) :
  padding_loop lim style row =
  Done (map (fun cell =>
               {| content := repeat blank (Z.to_nat (cell_width style));
                  color_code := color_code cell |}) row).
Proof.
  induction row as [| cell row IH]; cbn [padding_loop map]; [reflexivity |].
  rewrite wstring_fill_width. cbn [obind]. rewrite IH. reflexivity.
Qed.

Lemma centered_row_blanks (row : list Cell) :
  centered_row lim style
    (map (fun cell =>
            {| content := repeat blank (Z.to_nat (cell_width style));
               color_code := color_code cell |}) row)
    (map (fun _ => repeat blank (Z.to_nat (cell_width style))) row).
Proof.
  induction row as [| cell row IH]; cbn [map]; constructor; [| exact IH].
  cbn [content]. apply centered_full. apply wlength_repeat. lia.
Qed.

Hypothesis Hch : 1 <= cell_height style <= INT_MAX.

Lemma top_pad_eq :
  int_div (int_sub (cell_height style) line_height) 2 =
  (cell_height style - 1) / 2.
Proof.
  unfold line_height. rewrite <- Z.quot_div_nonneg by lia.
  unfold int_div, int_sub.
  rewrite (to_int_small (_ - 1)) by (unfold_ints; lia).
  apply to_int_small. unfold_ints.
  pose proof (Z.quot_pos (cell_height style - 1) 2).
  pose proof (Z.quot_le_upper_bound (cell_height style - 1) 2
                (cell_height style)).
  lia.
Qed.

Lemma bottom_pad_eq :
  int_sub (cell_height style)
    (int_add (int_div (int_sub (cell_height style) line_height) 2)
       line_height) =
  cell_height style - 1 - (cell_height style - 1) / 2.
Proof. rewrite top_pad_eq. unfold line_height. wrap_lia. Qed.

(** What [values] writes: blank lines, the content line, blank lines. *)
Lemma shows_values (row : list Cell) (texts : list wstring) :
  centered_row lim style row texts ->
  let v := c_str [BoxStyle.vertical (BoxStyle.borders (box_style style))] in
  let blank_line :=
    value_line v v v
      (map c_str
         (map (fun _ => repeat blank (Z.to_nat (cell_width style))) row)) in
  shows (values lim style row)
    (concat (repeat (blank_line ++ [newline])
               (Z.to_nat ((cell_height style - 1) / 2))) ++
     (value_line v v v (map c_str texts) ++ [newline]) ++
     concat (repeat (blank_line ++ [newline])
               (Z.to_nat (cell_height style - 1
                          - (cell_height style - 1) / 2)))).
Proof.
  intros Hrow v blank_line. unfold values.
  rewrite padding_loop_blanks, bind_lift_Done.
  cbv zeta. rewrite bottom_pad_eq, top_pad_eq.
  pose proof (shows_value_row _ _
                (BoxStyle.vertical (BoxStyle.borders (box_style style)))
                (BoxStyle.vertical (BoxStyle.borders (box_style style)))
                (BoxStyle.vertical (BoxStyle.borders (box_style style)))
                (centered_row_blanks row)) as Hblank.
  apply shows_bind; [apply shows_times, Hblank |].
  apply shows_bind; [now apply shows_value_row |].
  apply shows_times, Hblank.
Qed.

Lemma shows_values_screen (row : list Cell) :
  shows (values lim style row) (screen (calls (values lim style row))).
Proof.
  destruct (centered_row_total row) as [texts Htexts].
  destruct (shows_values row texts Htexts) as [Hres _].
  split; [exact Hres | reflexivity].
Qed.

(** The border between two rows of [n] columns. *)
Let middle_text (n : Z) : wstring :=
  let box := box_style style in
  value_line (c_str [BoxStyle.left (BoxStyle.intersections box)])
    (c_str [BoxStyle.center (BoxStyle.intersections box)])
    (c_str [BoxStyle.right (BoxStyle.intersections box)])
    (repeat (c_str (repeat (BoxStyle.horizontal (BoxStyle.borders box))
                      (Z.to_nat (cell_width style)))) (Z.to_nat n))
  ++ [newline].

(** The rows of a matrix, one after the other, a border before each but the
    first. *)
Lemma shows_print_loop (n : Z) (data : list (list Cell)) :
  0 <= n <= INT_MAX ->
  shows (print_loop lim style n true data)
    (joined (middle_text n)
       (map (fun row => screen (calls (values lim style row))) data)).
Proof.
  intros Hn.
  assert (Hfalse : forall rows,
    shows (print_loop lim style n false rows)
      (flat_map (fun x => middle_text n ++ x)
         (map (fun row => screen (calls (values lim style row))) rows))).
  { induction rows as [| row rows IH]; cbn [print_loop map flat_map].
    - apply shows_ret.
    - rewrite <- app_assoc.
      apply shows_bind; [now apply shows_sep_row |].
      apply shows_bind; [apply shows_values_screen | exact IH]. }
  destruct data as [| row rows]; cbn [print_loop map joined].
  - apply shows_ret.
  - rewrite bind_ret.
    apply shows_bind; [apply shows_values_screen | apply Hfalse].
Qed.

(** The whole grid: the top border, the rows, the bottom border, the borders
    as many columns wide as the first row has cells. *)
Lemma shows_print (row : list Cell) (rest : list (list Cell)) :
  Z.of_nat (length row) <= INT_MAX ->
  let box := box_style style in
  let n := Z.of_nat (length row) in
  let runs :=
    repeat (c_str (repeat (BoxStyle.horizontal (BoxStyle.borders box))
                     (Z.to_nat (cell_width style)))) (Z.to_nat n) in
  shows (print lim style (row :: rest))
    ((value_line (c_str [BoxStyle.top_left (BoxStyle.corners box)])
        (c_str [BoxStyle.top (BoxStyle.intersections box)])
        (c_str [BoxStyle.top_right (BoxStyle.corners box)]) runs
      ++ [newline]) ++
     joined (middle_text n)
       (map (fun r => screen (calls (values lim style r))) (row :: rest)) ++
     (value_line (c_str [BoxStyle.bottom_left (BoxStyle.corners box)])
        (c_str [BoxStyle.bottom (BoxStyle.intersections box)])
        (c_str [BoxStyle.bottom_right (BoxStyle.corners box)]) runs
      ++ [newline])).
Proof.
  intros Hlen box n runs. unfold print.
  rewrite n_rows_cons, bind_ret.
  rewrite to_int_small by (unfold is_int, INT_MIN, INT_MAX in *; lia).
  fold n.
  assert (Hn : 0 <= n <= INT_MAX) by (subst n; lia).
  apply shows_bind; [now apply shows_sep_row |].
  apply shows_bind; [now apply shows_print_loop |].
  now apply shows_sep_row.
Qed.

End Layout.

(** C4. With a cell height of at least one, [values] turns a row of
    single-line cells into exactly [cell_height] lines:
    [(cell_height - 1) / 2] blank lines (rounded down), one line with the
    centred contents, and the remaining [cell_height - 1 - top_pad] blank
    lines; every line runs from a vertical border glyph to a vertical border
    glyph, with one more between neighbouring cells.  With a height of 3 that
    is one blank line, the content line, one blank line. *)
Theorem values_cell_height_lines (lim : Limits) (cw ch : Z)
  (row : list Cell) :
  lp64 lim -> 0 <= cw <= INT_MAX -> 1 <= ch <= INT_MAX ->
  Forall (fun cell => one_line (content cell)) row ->
  let style := MatrixStyle_ctor cw ch in
  let v := [BoxStyle.vertical (BoxStyle.borders (box_style style))] in
  let top_pad := (ch - 1) / 2 in
  let bottom_pad := ch - 1 - top_pad in
  let blank_line :=
    value_line v v v (map (fun _ => repeat blank (Z.to_nat cw)) row) in
  exists texts : list wstring,
    centered_row lim style row texts /\
    result (values lim style row) = Done tt /\
    lines (screen (calls (values lim style row))) =
      repeat blank_line (Z.to_nat top_pad) ++
      [value_line v v v (map c_str texts)] ++
      repeat blank_line (Z.to_nat bottom_pad) /\
    Z.of_nat (length (lines (screen (calls (values lim style row))))) = ch /\
    (ch = 3 ->
     lines (screen (calls (values lim style row))) =
       [blank_line; value_line v v v (map c_str texts); blank_line]).
Proof.
  intros Hlim Hcw Hch Hrow style v top_pad bottom_pad blank_line.
  destruct (centered_row_total lim Hlim style Hcw row) as [texts Htexts].
  exists texts.
  destruct (shows_values lim Hlim style Hcw Hch row texts Htexts)
    as [Hres Hscr].
  change (c_str [BoxStyle.vertical (BoxStyle.borders (box_style style))])
    with v in Hscr.
  rewrite map_map in Hscr.
  rewrite (map_ext _ (fun _ : Cell => repeat blank (Z.to_nat cw))) in Hscr
    by (intros _; apply c_str_repeat; discriminate).
  fold blank_line in Hscr. cbn [cell_height style MatrixStyle_ctor] in Hscr.
  fold top_pad in Hscr. fold bottom_pad in Hscr.
  assert (Hv : one_line v) by (intros [H | []]; discriminate H).
  assert (Hbl : one_line blank_line).
  { apply one_line_value_line; try exact Hv.
    apply Forall_map, Forall_forall. intros _ _.
    apply one_line_repeat. discriminate. }
  assert (Hcl : one_line (value_line v v v (map c_str texts))).
  { apply one_line_value_line; try exact Hv.
    eapply centered_row_one_line; eassumption. }
  assert (Hlines :
    lines (screen (calls (values lim style row))) =
      repeat blank_line (Z.to_nat top_pad) ++
      [value_line v v v (map c_str texts)] ++
      repeat blank_line (Z.to_nat bottom_pad)).
  { rewrite Hscr, lines_repeat, lines_line by assumption.
    rewrite <- (app_nil_r (concat _)), lines_repeat by assumption.
    cbn [lines lines_from]. now rewrite app_nil_r. }
  repeat split; try assumption.
  - rewrite Hlines, !length_app, !repeat_length. cbn [length].
    assert (0 <= top_pad) by (apply Z.div_pos; lia).
    assert (top_pad <= ch - 1) by (subst top_pad; Z.div_mod_to_equations; lia).
    lia.
  - intros ->. rewrite Hlines. reflexivity.
Qed.

Lemma values_cell_height_lines_witness :
  let row := [Cell_ctor (L "x") 5; Cell_ctor (L "abc") 1] in
  (0 <= 2 <= INT_MAX /\ 1 <= 3 <= INT_MAX /\
   Forall (fun cell => one_line (content cell)) row) /\
  lines (screen (calls (values libstdcxx (MatrixStyle_ctor 2 3) row))) =
    [ [0x2503; 32; 32; 0x2503; 32; 32; 0x2503];
      [0x2503; 120; 32; 0x2503; 97; 98; 99; 0x2503];
      [0x2503; 32; 32; 0x2503; 32; 32; 0x2503] ].
Proof.
  intros row.
  assert (Hrow : Forall (fun cell => one_line (content cell)) row).
  { repeat constructor; intros H; cbn in H; intuition discriminate. }
  split; [unfold INT_MAX; repeat split; try lia; exact Hrow |].
  destruct (values_cell_height_lines libstdcxx 2 3 row lp64_libstdcxx)
    as (texts & Htexts & _ & _ & _ & Hthree);
    [unfold INT_MAX; lia | unfold INT_MAX; lia | exact Hrow |].
  rewrite (Hthree eq_refl).
  inversion Htexts as [| c1 s1 r1 t1 Hs1 Hrest1]; subst.
  inversion Hrest1 as [| c2 s2 r2 t2 Hs2 Hrest2]; subst.
  inversion Hrest2; subst.
  vm_compute in Hs1. vm_compute in Hs2.
  injection Hs1 as <-. injection Hs2 as <-.
  reflexivity.
Defined.

(** C1. A matrix of one single-line cell, printed with [cell_width = 3] and
    [cell_height = 1], comes out as exactly three lines: the top border (the
    top-left corner, three horizontal glyphs, the top-right corner), the
    content line (the centred content between two vertical glyphs), and the
    bottom border (the bottom-left corner, three horizontal glyphs, the
    bottom-right corner). *)
Theorem print_1x1_three_lines (lim : Limits) (text : wstring) (color : Z) :
  lp64 lim -> one_line text ->
  let box := BoxStyle.default in
  let h := BoxStyle.horizontal (BoxStyle.borders box) in
  let v := BoxStyle.vertical (BoxStyle.borders box) in
  let out := print lim (MatrixStyle_ctor 3 1) [[Cell_ctor text color]] in
  exists s : wstring,
    centered lim text 3 = Done s /\
    result out = Done tt /\
    lines (screen (calls out)) =
      [ [BoxStyle.top_left (BoxStyle.corners box); h; h; h;
         BoxStyle.top_right (BoxStyle.corners box)];
        [v] ++ c_str s ++ [v];
        [BoxStyle.bottom_left (BoxStyle.corners box); h; h; h;
         BoxStyle.bottom_right (BoxStyle.corners box)] ].
Proof.
  intros Hlim Htext box h v out.
  set (style := MatrixStyle_ctor 3 1).
  assert (Hcw : 0 <= cell_width style <= INT_MAX)
    by (cbn; unfold INT_MAX; lia).
  assert (Hch : 1 <= cell_height style <= INT_MAX)
    by (cbn; unfold INT_MAX; lia).
  destruct (centered_total lim Hlim style Hcw text) as [s Hs].
  exists s. split; [exact Hs |].
  assert (Hout : shows out
    (([BoxStyle.top_left (BoxStyle.corners box); h; h; h;
       BoxStyle.top_right (BoxStyle.corners box)] ++ [newline]) ++
     ((([v] ++ c_str s ++ [v]) ++ [newline]) ++ []) ++
     ([BoxStyle.bottom_left (BoxStyle.corners box); h; h; h;
       BoxStyle.bottom_right (BoxStyle.corners box)] ++ [newline]))).
  { subst out. unfold print.
    change (n_rows [[Cell_ctor text color]]) with (ret (A:=Z) 1).
    rewrite bind_ret.
    apply shows_bind.
    { apply (shows_sep_row lim Hlim style Hcw 1). unfold INT_MAX; lia. }
    apply shows_bind.
    { cbn [print_loop]. rewrite bind_ret.
      apply shows_bind; [| apply shows_ret].
      assert (Hrow : centered_row lim style [Cell_ctor text color] [s])
        by (repeat constructor; exact Hs).
      destruct (shows_values lim Hlim style Hcw Hch _ _ Hrow) as [Hr Ht].
      split; [exact Hr |]. refine (eq_trans Ht _). cbn.
      now rewrite !app_nil_r. }
    apply (shows_sep_row lim Hlim style Hcw 1). unfold INT_MAX; lia. }
  destruct Hout as [Hres Hscr]. split; [exact Hres |].
  assert (Hv : one_line [v]) by (intros [H | []]; discriminate H).
  rewrite Hscr, app_nil_r.
  rewrite lines_line, lines_line.
  - reflexivity.
  - repeat apply one_line_app; try exact Hv.
    apply one_line_c_str. exact (centered_one_line lim _ _ _ Htext Hs).
  - intros Hin. cbn in Hin. intuition discriminate.
Qed.

Lemma print_1x1_three_lines_witness :
  one_line (L "x") /\
  lines (screen (calls
    (print libstdcxx (MatrixStyle_ctor 3 1) [[Cell_ctor (L "x") 5]]))) =
    [ [0x250F; 0x2501; 0x2501; 0x2501; 0x2513];
      [0x2503; 32; 120; 32; 0x2503];
      [0x2517; 0x2501; 0x2501; 0x2501; 0x251B] ].
Proof.
  assert (Hx : one_line (L "x"))
    by (intros H; cbn in H; intuition discriminate).
  split; [exact Hx |].
  destruct (print_1x1_three_lines libstdcxx (L "x") 5 lp64_libstdcxx Hx)
    as (s & Hs & _ & Hlines).
  rewrite Hlines. vm_compute in Hs. injection Hs as <-.
  reflexivity.
Defined.

(** ** Colour scopes *)

Lemma scopes_closed_app (cs cs' : list call) :
  scopes_closed cs -> scopes_closed cs' -> scopes_closed (cs ++ cs').
Proof.
  intros Hcs Hcs'. induction Hcs as [| c cs Hc _ IH | on off body cs Hb _ IH].
  - exact Hcs'.
  - cbn [app]. now apply closed_plain.
  - rewrite <- !app_assoc. now apply closed_scope.
Qed.

Lemma scopes_closed_plain (cs : list call) :
  forallb plain cs = true -> scopes_closed cs.
Proof.
  induction cs as [| c cs IH]; cbn [forallb]; intros H.
  - apply closed_nil.
  - apply andb_true_iff in H as [Hc Hcs]. apply closed_plain; auto.
Qed.

Lemma activations_app (cs cs' : list call) :
  activations (cs ++ cs') = (activations cs + activations cs')%nat.
Proof. unfold activations. now rewrite filter_app, length_app. Qed.

Lemma deactivations_app (cs cs' : list call) :
  deactivations (cs ++ cs') = (deactivations cs + deactivations cs')%nat.
Proof. unfold deactivations. now rewrite filter_app, length_app. Qed.

Lemma plain_counts (cs : list call) :
  forallb plain cs = true ->
  activations cs = 0%nat /\ deactivations cs = 0%nat.
Proof.
  unfold activations, deactivations.
  induction cs as [| c cs IH]; cbn [forallb filter]; intros H.
  - split; reflexivity.
  - apply andb_true_iff in H as [Hc Hcs]. unfold plain in Hc.
    apply andb_true_iff in Hc as [Hon Hoff].
    apply negb_true_iff in Hon, Hoff. rewrite Hon, Hoff. auto.
Qed.

(** In closed scopes every activation has its deactivation. *)
Lemma scopes_closed_counts (cs : list call) :
  scopes_closed cs -> activations cs = deactivations cs.
Proof.
  induction 1 as [| c cs Hc _ IH | on off body cs Hb _ IH].
  - reflexivity.
  - destruct (plain_counts [c]) as [Hon Hoff];
      [cbn [forallb]; now rewrite Hc |].
    change (c :: cs) with ([c] ++ cs).
    rewrite activations_app, deactivations_app. lia.
  - destruct (plain_counts body Hb) as [Hon Hoff].
    rewrite !activations_app, !deactivations_app, Hon, Hoff, IH.
    reflexivity.
Qed.

Lemma quiet_lift {A : Type} (o : outcome A) : o <> Abort -> quiet (lift o).
Proof. intros Ho. split; [exact Ho | reflexivity]. Qed.

Lemma quiet_emit (c : call) : plain c = true -> quiet (emit c).
Proof.
  intros Hc. split; [discriminate |]. cbn. now rewrite Hc.
Qed.

Lemma quiet_bind {A B : Type} (m : M A) (f : A -> M B) :
  quiet m -> (forall a, quiet (f a)) -> quiet (bind m f).
Proof.
  unfold quiet, result, calls.
  destruct m as [cs [a | |]]; cbn [bind fst snd]; intros [Hr Hb] Hf.
  - specialize (Hf a). destruct (f a) as [cs' r']. cbn [fst snd] in *.
    destruct Hf as [Hr' Hb'].
    split; [exact Hr' |]. rewrite forallb_app, Hb, Hb'. reflexivity.
  - split; [discriminate | exact Hb].
  - contradiction.
Qed.

Lemma quiet_tidy {A : Type} (m : M A) : quiet m -> tidy m.
Proof. intros [Hr Hb]. split; [exact Hr | now apply scopes_closed_plain]. Qed.

Lemma tidy_ret {A : Type} (a : A) : tidy (ret a).
Proof. split; [discriminate | apply closed_nil]. Qed.

Lemma tidy_bind {A B : Type} (m : M A) (f : A -> M B) :
  tidy m -> (forall a, tidy (f a)) -> tidy (bind m f).
Proof.
  unfold tidy, result, calls.
  destruct m as [cs [a | |]]; cbn [bind fst snd]; intros [Hr Hb] Hf.
  - specialize (Hf a). destruct (f a) as [cs' r']. cbn [fst snd] in *.
    destruct Hf as [Hr' Hb'].
    split; [exact Hr' | now apply scopes_closed_app].
  - split; [discriminate | exact Hb].
  - contradiction.
Qed.

Lemma tidy_times (n : nat) (m : M unit) : tidy m -> tidy (times n m).
Proof.
  intros Hm. induction n as [| n IH]; cbn [times].
  - apply tidy_ret.
  - apply tidy_bind; auto.
Qed.

(** A [Color] object around a body that touches no attribute: the two
    [attron] of its constructor are followed by the two [attroff] of its
    destructor, whether the body
    returns or throws. *)
Lemma tidy_scope {A : Type} (n : Z) (body : M A) :
  quiet body ->
  tidy (bind (Color_ctor n)
          (fun scoped => scope_exit body (Color_dtor scoped))).
Proof.
  unfold quiet, tidy, result, calls.
  destruct body as [cs [a | |]]; cbn [fst snd]; intros [Hr Hb];
    [| | contradiction];
    (split; [discriminate |]);
    cbn [Color_ctor Color_dtor emit ret bind scope_exit obind app fst snd
         Color_n];
    rewrite <- (app_nil_r (cs ++ _)), <- app_assoc;
    apply (closed_scope (Int n) Indeterminate cs []);
    [exact Hb | apply closed_nil | exact Hb | apply closed_nil].
Qed.

Section Scopes.

Variable lim : Limits.

Lemma wstring_fill_no_abort (n : Z) (c : wchar_t) :
  wstring_fill lim n c <> Abort.
Proof. unfold wstring_fill. destruct (n <=? _); discriminate. Qed.

Lemma vector_fill_no_abort {T : Type} (n : Z) (x : T) :
  vector_fill lim n x <> Abort.
Proof. unfold vector_fill. destruct (n <=? _); discriminate. Qed.

Lemma obind_no_abort {A B : Type} (o : outcome A) (f : A -> outcome B) :
  o <> Abort -> (forall a, f a <> Abort) -> obind o f <> Abort.
Proof. destruct o; cbn; auto; discriminate. Qed.

Lemma quiet_addwch (c : wchar_t) : quiet (addwch lim c).
Proof.
  unfold addwch, n_chars. apply quiet_bind.
  - apply quiet_lift, wstring_fill_no_abort.
  - intros s. now apply quiet_emit.
Qed.

Lemma quiet_end_line : quiet end_line.
Proof. now apply quiet_emit. Qed.

Lemma quiet_printline (content : wstring) (width : Z)
  (alignment : Aligned.t) :
  quiet (printline lim content width alignment).
Proof.
  unfold printline. apply quiet_bind.
  - apply quiet_lift.
    destruct alignment;
      repeat (apply obind_no_abort; [| intros _]);
      apply positioned_no_abort.
  - intros s. now apply quiet_emit.
Qed.

Variable style : MatrixStyle.

Lemma tidy_value_row_loop (inter : wchar_t) (first : bool)
  (row : list Cell) :
  tidy (value_row_loop lim style inter first row).
Proof.
  revert first.
  induction row as [| cell row IH]; intros first; cbn [value_row_loop].
  - apply tidy_ret.
  - apply tidy_bind;
      [destruct first; [apply tidy_ret | apply quiet_tidy, quiet_addwch] |].
    intros _. apply tidy_bind; [apply tidy_scope, quiet_printline |].
    intros _. apply IH.
Qed.

Lemma tidy_value_row (row : list Cell) (left inter right : wchar_t) :
  tidy (value_row lim style row left inter right).
Proof.
  unfold value_row.
  apply tidy_bind; [apply quiet_tidy, quiet_addwch | intros _].
  apply tidy_bind; [apply tidy_value_row_loop | intros _].
  apply tidy_bind; [apply quiet_tidy, quiet_addwch | intros _].
  apply quiet_tidy, quiet_end_line.
Qed.

Lemma tidy_sep_row (n : Z) (left plain inter right : wchar_t) :
  tidy (sep_row lim style n left plain inter right).
Proof.
  unfold sep_row.
  apply tidy_bind;
    [apply quiet_tidy, quiet_lift, wstring_fill_no_abort | intros s].
  apply tidy_bind;
    [apply quiet_tidy, quiet_lift, vector_fill_no_abort | intros sep].
  apply tidy_value_row.
Qed.

Lemma padding_loop_no_abort (row : list Cell) :
  padding_loop lim style row <> Abort.
Proof.
  induction row as [| cell row IH]; cbn [padding_loop]; [discriminate |].
  apply obind_no_abort; [apply wstring_fill_no_abort | intros s].
  apply obind_no_abort; [exact IH | discriminate].
Qed.

Lemma tidy_values (row : list Cell) : tidy (values lim style row).
Proof.
  unfold values.
  apply tidy_bind;
    [apply quiet_tidy, quiet_lift, padding_loop_no_abort | intros padding_row].
  cbv zeta.
  apply tidy_bind; [apply tidy_times, tidy_value_row | intros _].
  apply tidy_bind; [apply tidy_value_row | intros _].
  apply tidy_times, tidy_value_row.
Qed.

Lemma tidy_print_loop (n : Z) (first : bool) (data : list (list Cell)) :
  tidy (print_loop lim style n first data).
Proof.
  revert first.
  induction data as [| row data IH]; intros first; cbn [print_loop].
  - apply tidy_ret.
  - apply tidy_bind;
      [destruct first; [apply tidy_ret | apply tidy_sep_row] | intros _].
    apply tidy_bind; [apply tidy_values | intros _; apply IH].
Qed.

(** All of [print] after the assertion. *)
Lemma tidy_print_body (n : Z) (data : list (list Cell)) :
  tidy (bind (top_row lim style n)
          (fun _ => bind (print_loop lim style n true data)
                      (fun _ => bottom_row lim style n))).
Proof.
  apply tidy_bind; [apply tidy_sep_row | intros _].
  apply tidy_bind; [apply tidy_print_loop | intros _].
  apply tidy_sep_row.
Qed.

End Scopes.

(** The counts of one [print], whatever the style and the matrix and
    however the call ends: as many [attroff] calls as [attron] calls, every
    activation of a pair and bold being followed, after calls that touch no
    attribute, by the deactivation of a pair and bold.  Which pair that is,
    the counts do not say. *)
Theorem print_scopes_balanced (lim : Limits) (style : MatrixStyle)
  (data : list (list Cell)) :
  activations (calls (print lim style data)) =
  deactivations (calls (print lim style data)) /\
  scopes_closed (calls (print lim style data)).
Proof.
  assert (Hclosed : scopes_closed (calls (print lim style data))).
  { unfold print. destruct data as [| row rest].
    - apply closed_nil.
    - rewrite n_rows_cons, bind_ret. apply tidy_print_body. }
  split; [apply scopes_closed_counts |]; exact Hclosed.
Qed.

(** The scopes of a two by two matrix: two cells in each of the nine lines
    written. *)
Example print_scopes_2x2 :
  let data := [[Cell_ctor (L "x") 5; Cell_ctor (L "abc") 1];
               [Cell_ctor (L "y") 5; Cell_ctor (L "z") 1]] in
  let out := print libstdcxx (MatrixStyle_ctor 2 3) data in
  result out = Done tt /\
  activations (calls out) = 36%nat /\ deactivations (calls out) = 36%nat.
Proof. vm_compute. repeat split. Qed.

(** ** Tests that every call passes *)

Section EveryCall.

Variable p : call -> bool.

Lemma every_ret {A : Type} (a : A) : every_call p (ret a).
Proof. reflexivity. Qed.

Lemma every_lift {A : Type} (o : outcome A) : every_call p (lift o).
Proof. reflexivity. Qed.

Lemma every_emit (c : call) : p c = true -> every_call p (emit c).
Proof. intros Hc. unfold every_call. cbn. now rewrite Hc. Qed.

Lemma every_bind {A B : Type} (m : M A) (f : A -> M B) :
  every_call p m -> (forall a, every_call p (f a)) -> every_call p (bind m f).
Proof.
  unfold every_call, calls.
  destruct m as [cs [a | |]]; cbn [bind fst]; intros Hm Hf; try exact Hm.
  specialize (Hf a). destruct (f a) as [cs' r']. cbn [fst] in *.
  now rewrite forallb_app, Hm, Hf.
Qed.

Lemma every_times (n : nat) (m : M unit) :
  every_call p m -> every_call p (times n m).
Proof.
  intros Hm. induction n as [| n IH]; cbn [times].
  - apply every_ret.
  - apply every_bind; auto.
Qed.

End EveryCall.

(** A [Color] object never names the pair it turned on when it turns a pair
    off: its destructor reads the member, which holds no number. *)
Lemma spares_scope {A : Type} (n : Z) (body : M A) :
  every_call spares_pairs body ->
  every_call spares_pairs
    (bind (Color_ctor n) (fun scoped => scope_exit body (Color_dtor scoped))).
Proof.
  unfold every_call, calls.
  destruct body as [cs [a | |]]; cbn [fst]; intros Hb;
    cbn [Color_ctor Color_dtor emit ret bind scope_exit obind app fst snd
         Color_n forallb spares_pairs andb];
    rewrite ?forallb_app, Hb; reflexivity.
Qed.

Section Spares.

Variable lim : Limits.

Lemma spares_addwch (c : wchar_t) : every_call spares_pairs (addwch lim c).
Proof.
  unfold addwch, n_chars.
  apply every_bind; [apply every_lift | intros s; now apply every_emit].
Qed.

Lemma spares_printline (content : wstring) (width : Z)
  (alignment : Aligned.t) :
  every_call spares_pairs (printline lim content width alignment).
Proof.
  unfold printline.
  apply every_bind; [apply every_lift | intros s; now apply every_emit].
Qed.

Variable style : MatrixStyle.

Lemma spares_value_row_loop (inter : wchar_t) (first : bool)
  (row : list Cell) :
  every_call spares_pairs (value_row_loop lim style inter first row).
Proof.
  revert first.
  induction row as [| cell row IH]; intros first; cbn [value_row_loop].
  - apply every_ret.
  - apply every_bind;
      [destruct first; [apply every_ret | apply spares_addwch] | intros _].
    apply every_bind; [apply spares_scope, spares_printline | intros _].
    apply IH.
Qed.

Lemma spares_value_row (row : list Cell) (left inter right : wchar_t) :
  every_call spares_pairs (value_row lim style row left inter right).
Proof.
  unfold value_row.
  apply every_bind; [apply spares_addwch | intros _].
  apply every_bind; [apply spares_value_row_loop | intros _].
  apply every_bind; [apply spares_addwch | intros _].
  now apply every_emit.
Qed.

Lemma spares_sep_row (n : Z) (left plain inter right : wchar_t) :
  every_call spares_pairs (sep_row lim style n left plain inter right).
Proof.
  unfold sep_row.
  apply every_bind; [apply every_lift | intros s].
  apply every_bind; [apply every_lift | intros sep].
  apply spares_value_row.
Qed.

Lemma spares_values (row : list Cell) :
  every_call spares_pairs (values lim style row).
Proof.
  unfold values.
  apply every_bind; [apply every_lift | intros padding_row].
  cbv zeta.
  apply every_bind; [apply every_times, spares_value_row | intros _].
  apply every_bind; [apply spares_value_row | intros _].
  apply every_times, spares_value_row.
Qed.

Lemma spares_print_loop (n : Z) (first : bool) (data : list (list Cell)) :
  every_call spares_pairs (print_loop lim style n first data).
Proof.
  revert first.
  induction data as [| row data IH]; intros first; cbn [print_loop].
  - apply every_ret.
  - apply every_bind;
      [destruct first; [apply every_ret | apply spares_sep_row] | intros _].
    apply every_bind; [apply spares_values | intros _; apply IH].
Qed.

Lemma spares_print (data : list (list Cell)) :
  every_call spares_pairs (print lim style data).
Proof.
  unfold print. destruct data as [| row rest]; [reflexivity |].
  rewrite n_rows_cons, bind_ret.
  apply every_bind; [apply spares_sep_row | intros _].
  apply every_bind; [apply spares_print_loop | intros _].
  apply spares_sep_row.
Qed.

End Spares.

Lemma spares_not_In (cs : list call) (n : Z) :
  forallb spares_pairs cs = true -> ~ In (attroff (COLOR_PAIR (Int n))) cs.
Proof.
  intros Hcs Hin. rewrite forallb_forall in Hcs.
  specialize (Hcs _ Hin). discriminate.
Qed.

(** C9. The pair a cell turns on is never the pair named when a pair is
    turned off: whatever the style and the matrix, no call of [print] is
    [attroff] of a colour pair given by its number, since the destructor of
    [Color] passes its member [n], which nothing initialises.  On the one by
    one matrix whose cell has colour 5, pair 5 is turned on and every
    [attroff] of a pair names the uninitialised member; the activation is
    not matched, though the six [attron] calls are followed by six [attroff]
    calls. *)
Theorem print_leaves_the_pair_on :
  (forall (lim : Limits) (style : MatrixStyle) (data : list (list Cell))
          (n : Z),
     ~ In (attroff (COLOR_PAIR (Int n))) (calls (print lim style data))) /\
  print libstdcxx (MatrixStyle_ctor 3 1) [[Cell_ctor (L "x") 5]] =
    ([addwstr [0x250F];
      attron (COLOR_PAIR (Int 0)); attron A_BOLD;
      addwstr [0x2501; 0x2501; 0x2501];
      attroff (COLOR_PAIR Indeterminate); attroff A_BOLD;
      addwstr [0x2513]; addch newline;
      addwstr [0x2503];
      attron (COLOR_PAIR (Int 5)); attron A_BOLD;
      addwstr (L " x ");
      attroff (COLOR_PAIR Indeterminate); attroff A_BOLD;
      addwstr [0x2503]; addch newline;
      addwstr [0x2517];
      attron (COLOR_PAIR (Int 0)); attron A_BOLD;
      addwstr [0x2501; 0x2501; 0x2501];
      attroff (COLOR_PAIR Indeterminate); attroff A_BOLD;
      addwstr [0x251B]; addch newline], Done tt) /\
  In (attron (COLOR_PAIR (Int 5)))
    (calls (print libstdcxx (MatrixStyle_ctor 3 1) [[Cell_ctor (L "x") 5]])) /\
  activations
    (calls (print libstdcxx (MatrixStyle_ctor 3 1) [[Cell_ctor (L "x") 5]])) =
    6%nat /\
  deactivations
    (calls (print libstdcxx (MatrixStyle_ctor 3 1) [[Cell_ctor (L "x") 5]])) =
    6%nat.
Proof.
  split; [| split; [| split; [| split]]].
  - intros lim style data n. apply spares_not_In, spares_print.
  - vm_compute. reflexivity.
  - vm_compute. tauto.
  - vm_compute. reflexivity.
  - vm_compute. reflexivity.
Qed.

(** C8. What [print] asserts before it writes anything is that the
    matrix has a row: on the matrix with no row the assertion fails with no
    call made, and on no other matrix does [print] stop at an assertion;
    whether the rows have cells is not checked. *)
Theorem print_asserts_a_row (lim : Limits) (style : MatrixStyle) :
  print lim style [] = ([], Abort) /\
  forall data : list (list Cell),
    result (print lim style data) = Abort <-> data = [].
Proof.
  split; [reflexivity |]. intros data. destruct data as [| row rest].
  - split; reflexivity.
  - split; [| discriminate]. unfold print.
    rewrite n_rows_cons, bind_ret. intros Habort.
    now destruct (tidy_print_body lim style
                    (to_int (Z.of_nat (length row))) (row :: rest)).
Qed.

(** A matrix whose only row is empty passes the assertion and is drawn:
    two corners, two vertical glyphs, two corners. *)
Lemma print_empty_row_counterexample :
  In [] [[] : list Cell] /\
  print libstdcxx (MatrixStyle_ctor 3 1) [[]] =
    ([addwstr [0x250F]; addwstr [0x2513]; addch newline;
      addwstr [0x2503]; addwstr [0x2503]; addch newline;
      addwstr [0x2517]; addwstr [0x251B]; addch newline],
     Done tt).
Proof. split; [now left | vm_compute; reflexivity]. Qed.

(** ** [Color] *)

(** C5. Constructing a [Color] with pair index [n] activates pair
    [n] and then bold; destroying it deactivates a colour pair, the one its
    member names, and then bold: the same order as the activation, not the
    reverse. *)
Theorem Color_scope_calls (n : Z) :
  calls (Color_ctor n) = [attron (COLOR_PAIR (Int n)); attron A_BOLD] /\
  forall this : Color,
    calls (Color_dtor this) =
      [attroff (COLOR_PAIR (Color_n this)); attroff A_BOLD] /\
    result (Color_dtor this) = Done tt.
Proof. split; [reflexivity | intros this; split; reflexivity]. Qed.

(** The calls of one scope, for pair 1: bold is the last attribute
    deactivated, whichever pair the destructor names. *)
Lemma Color_scope_order_counterexample :
  let scope := (scoped <- Color_ctor 1;; Color_dtor scoped)%M in
  calls scope =
    [attron (COLOR_PAIR (Int 1)); attron A_BOLD;
     attroff (COLOR_PAIR Indeterminate); attroff A_BOLD] /\
  forall pair : int_value,
    calls scope <>
    [attron (COLOR_PAIR (Int 1)); attron A_BOLD;
     attroff A_BOLD; attroff (COLOR_PAIR pair)].
Proof. split; [reflexivity | intros pair; discriminate]. Qed.

(** ** [ColorScheme] *)

Lemma ColorScheme_loop_calls (colors : list Z) (first : nat) :
  Z.of_nat first + Z.of_nat (length colors) <= INT_MAX + 1 ->
  result (ColorScheme_loop (Z.of_nat first) colors) = Done tt /\
  length (calls (ColorScheme_loop (Z.of_nat first) colors)) = length colors /\
  forall (i : nat) (color : Z),
    nth_error colors i = Some color ->
    nth_error (calls (ColorScheme_loop (Z.of_nat first) colors)) i =
      Some (init_pair (Z.of_nat (first + i)) COLOR_BLACK color).
Proof.
  revert first. induction colors as [| color rest IH]; intros first Hfit.
  - repeat split. intros [| i] c; discriminate.
  - cbn [ColorScheme_loop]. rewrite bind_emit.
    cbn [calls result fst snd length].
    destruct rest as [| color' rest'].
    + repeat split. intros [| [| i]] c; try discriminate.
      intros [= <-]. now rewrite Nat.add_0_r.
    + replace (int_add (Z.of_nat first) 1) with (Z.of_nat (S first))
        by (cbn [length] in Hfit; wrap_lia).
      destruct (IH (S first)) as (Hres & Hlen & Hnth);
        [cbn [length] in *; lia |].
      unfold calls, result in *. repeat split.
      * exact Hres.
      * now rewrite Hlen.
      * intros [| i] c; cbn [nth_error].
        -- intros [= <-]. now rewrite Nat.add_0_r.
        -- intros Hc. rewrite (Hnth i c Hc). do 3 f_equal. lia.
Qed.

(** C6. Constructing a [ColorScheme] from a palette (of at most
    [2^31] entries, the indices an [int] counts) calls [start_color] and then,
    for every index [i] in order, [init_pair] for pair [i] with
    [COLOR_BLACK] as the foreground and palette entry [i] as the background,
    and nothing else. *)
Theorem ColorScheme_registers_pairs (scheme_ : list Z) :
  Z.of_nat (length scheme_) <= INT_MAX + 1 ->
  result (ColorScheme_ctor scheme_) = Done {| scheme := scheme_ |} /\
  length (calls (ColorScheme_ctor scheme_)) = S (length scheme_) /\
  nth_error (calls (ColorScheme_ctor scheme_)) 0 = Some start_color /\
  forall (i : nat) (color : Z),
    nth_error scheme_ i = Some color ->
    nth_error (calls (ColorScheme_ctor scheme_)) (S i) =
      Some (init_pair (Z.of_nat i) COLOR_BLACK color).
Proof.
  intros Hfit.
  destruct (ColorScheme_loop_calls scheme_ 0) as (Hres & Hlen & Hnth);
    [cbn [Z.of_nat]; lia |].
  cbn [Z.of_nat Nat.add] in *.
  unfold ColorScheme_ctor. rewrite bind_emit.
  unfold calls, result in *. cbn [fst snd].
  destruct (ColorScheme_loop 0 scheme_) as [cs r]. cbn [fst snd] in *.
  subst r. cbn [bind ret fst snd length nth_error]. rewrite app_nil_r.
  repeat split.
  - now rewrite Hlen.
  - exact Hnth.
Qed.

Lemma ColorScheme_registers_pairs_witness :
  Z.of_nat (length [COLOR_RED; COLOR_GREEN]) <= INT_MAX + 1 /\
  nth_error (calls (ColorScheme_ctor [COLOR_RED; COLOR_GREEN])) 2 =
    Some (init_pair 1 COLOR_BLACK COLOR_GREEN).
Proof.
  split.
  - unfold INT_MAX. cbn. lia.
  - refine (proj2 (proj2 (proj2 (ColorScheme_registers_pairs
                                   [COLOR_RED; COLOR_GREEN] _)))
              1%nat COLOR_GREEN _);
      [unfold INT_MAX; cbn; lia | reflexivity].
Defined.

(** For the palette of red alone, pair 0 is registered with black as its
    foreground and red as its background, not red on black. *)
Lemma ColorScheme_background_counterexample :
  calls (ColorScheme_ctor [COLOR_RED]) =
    [start_color; init_pair 0 COLOR_BLACK COLOR_RED] /\
  calls (ColorScheme_ctor [COLOR_RED]) <>
    [start_color; init_pair 0 COLOR_RED COLOR_BLACK].
Proof. split; [reflexivity | discriminate]. Qed.

(** ** [width_in_chars] *)

(** C7. For a matrix with a first row, [width_in_chars] returns
    [cell_width + 1] times the number of cells of that first row, the number
    of columns ([n_rows] is [data[0].size()]), as long as the product is an
    [int]; the number of rows plays no part. *)
Theorem width_in_chars_counts_columns (style : MatrixStyle)
  (row : list Cell) (rest : list (list Cell)) :
  is_int (cell_width style + 1) ->
  is_int (Z.of_nat (length row)) ->
  is_int ((cell_width style + 1) * Z.of_nat (length row)) ->
  width_in_chars style (row :: rest) =
    ([], Done ((cell_width style + 1) * Z.of_nat (length row))).
Proof.
  intros Hw Hn Hmul. unfold width_in_chars.
  rewrite n_rows_cons, bind_ret. unfold ret, int_mul, int_add.
  now rewrite (to_int_small _ Hn), (to_int_small _ Hw), (to_int_small _ Hmul).
Qed.

Lemma width_in_chars_counts_columns_witness :
  (is_int (3 + 1) /\ is_int 2 /\ is_int ((3 + 1) * 2)) /\
  width_in_chars (MatrixStyle_ctor 3 1)
    [[Cell_ctor (L "a") 0; Cell_ctor (L "b") 0]] = ([], Done 8).
Proof.
  split.
  - unfold is_int, INT_MIN, INT_MAX. lia.
  - refine (width_in_chars_counts_columns (MatrixStyle_ctor 3 1)
              [Cell_ctor (L "a") 0; Cell_ctor (L "b") 0] [] _ _ _);
      unfold is_int, INT_MIN, INT_MAX; cbn; lia.
Defined.

(** A matrix of one row and two columns, cells three wide: the result is
    8, twice [3 + 1], not [3 + 1] times its one row. *)
Lemma width_in_chars_rows_counterexample :
  let data := [[Cell_ctor (L "a") 0; Cell_ctor (L "b") 0]] in
  Z.of_nat (length data) = 1 /\
  width_in_chars (MatrixStyle_ctor 3 1) data = ([], Done 8) /\
  8 <> (3 + 1) * Z.of_nat (length data).
Proof. repeat split. discriminate. Qed.

(** * More of the header *)

(** ** The other alignment helpers *)

Section MoreAlignment.

Variable lim : Limits.
Hypothesis Hlim : lp64 lim.

Lemma aligned_right_padded (content : wstring) (width : Z) :
  wlength content < width -> width <= INT_MAX ->
  aligned_right lim content width =
  Done (repeat blank (Z.to_nat (width - wlength content)) ++ content).
Proof.
  intros Hlen Hw. pose proof (wlength_nonneg content) as Hc.
  unfold aligned_right.
  replace (to_int (size_sub (to_size_t width) (wlength content)))
    with (width - wlength content) by wrap_lia.
  rewrite (positioned_padded lim Hlim) by lia.
  replace (width - (wlength content + (width - wlength content))) with 0 by lia.
  cbn [Z.to_nat repeat]. now rewrite app_nil_r.
Qed.

Lemma aligned_left_padded (content : wstring) (width : Z) :
  wlength content < width -> width <= INT_MAX ->
  aligned_left lim content width =
  Done (content ++ repeat blank (Z.to_nat (width - wlength content))).
Proof.
  intros Hlen Hw. pose proof (wlength_nonneg content) as Hc.
  unfold aligned_left.
  rewrite (positioned_padded lim Hlim) by lia.
  cbn [Z.to_nat repeat app]. do 3 f_equal. lia.
Qed.

(** A negative width is a huge [size_t]: no content is that long, and the
    trailing blanks asked for are more than a string can hold. *)
Lemma positioned_negative_width (content : wstring) (width offset : Z) :
  is_int width -> width < 0 -> is_int offset ->
  wlength content <= wstring_max_size lim ->
  positioned lim content width offset = Throw.
Proof.
  intros Hw Hneg Ho Hmax. pose proof (wlength_nonneg content) as Hc.
  destruct Hlim as [[Hlo Hhi] _].
  unfold positioned, wstring_fill.
  repeat match goal with
         | |- context [if ?a <=? ?b then _ else _] =>
             destruct (Z.leb_spec a b); cbn [obind]
         end; try reflexivity; exfalso; wrap_lia.
Qed.

(** An offset that pushes the content past the width makes the count of
    trailing blanks wrap around. *)
Lemma positioned_offset_past_width (content : wstring) (width offset : Z) :
  0 <= offset <= INT_MAX -> width <= INT_MAX ->
  wlength content < width -> width < offset + wlength content ->
  positioned lim content width offset = Throw.
Proof.
  intros Ho Hw Hlen Hpast. pose proof (wlength_nonneg content) as Hc.
  destruct Hlim as [[Hlo Hhi] _].
  unfold positioned, wstring_fill.
  repeat match goal with
         | |- context [if ?a <=? ?b then _ else _] =>
             destruct (Z.leb_spec a b); cbn [obind]
         end; try reflexivity; exfalso; wrap_lia.
Qed.

End MoreAlignment.

(** X1. For a content shorter than the width, [aligned_right] puts all the
    [width - length] blanks before the content and [aligned_left] puts them
    all after it. *)
Theorem aligned_right_left_pad (lim : Limits) (content : wstring) (width : Z) :
  lp64 lim -> wlength content < width -> width <= INT_MAX ->
  aligned_right lim content width =
    Done (repeat blank (Z.to_nat (width - wlength content)) ++ content) /\
  aligned_left lim content width =
    Done (content ++ repeat blank (Z.to_nat (width - wlength content))).
Proof.
  intros Hlim Hlen Hw. split.
  - now apply aligned_right_padded.
  - now apply aligned_left_padded.
Qed.

Lemma aligned_right_left_pad_witness :
  (wlength (L "AB") < 6 /\ 6 <= INT_MAX) /\
  aligned_right libstdcxx (L "AB") 6 = Done (L "    AB") /\
  aligned_left libstdcxx (L "AB") 6 = Done (L "AB    ").
Proof.
  split; [unfold INT_MAX; cbn; lia |].
  refine (aligned_right_left_pad libstdcxx (L "AB") 6 lp64_libstdcxx _ _);
    unfold INT_MAX; cbn; lia.
Defined.


(** X2. Within a non-negative width the three helpers always return, and
    what each returns is as long as the longer of the width and the
    content: it pads, and it never cuts. *)
Theorem alignment_result_length (lim : Limits) (content : wstring) (width : Z) :
  lp64 lim -> 0 <= width <= INT_MAX ->
  exists l c r : wstring,
    aligned_left lim content width = Done l /\
    centered lim content width = Done c /\
    aligned_right lim content width = Done r /\
    wlength l = Z.max width (wlength content) /\
    wlength c = Z.max width (wlength content) /\
    wlength r = Z.max width (wlength content).
Proof.
  intros Hlim Hw. pose proof (wlength_nonneg content) as Hc.
  destruct (Z.le_gt_cases width (wlength content)) as [Hov | Hlen].
  - exists content, content, content.
    unfold aligned_left, centered, aligned_right.
    rewrite !(positioned_overflow lim) by lia.
    repeat split; lia.
  - eexists _, _, _.
    rewrite (aligned_left_padded lim Hlim), (aligned_right_padded lim Hlim),
      (centered_padded lim Hlim) by lia.
    repeat split;
      rewrite ?wlength_app, ?wlength_repeat
        by (Z.div_mod_to_equations; lia);
      Z.div_mod_to_equations; lia.
Qed.

Lemma alignment_result_length_witness :
  0 <= 6 <= INT_MAX /\
  exists l c r : wstring,
    aligned_left libstdcxx (L "ABCDEFGH") 6 = Done l /\
    centered libstdcxx (L "ABCDEFGH") 6 = Done c /\
    aligned_right libstdcxx (L "ABCDEFGH") 6 = Done r /\
    wlength l = 8 /\ wlength c = 8 /\ wlength r = 8.
Proof.
  assert (Hw : 0 <= 6 <= INT_MAX) by (unfold INT_MAX; lia).
  split; [exact Hw |].
  exact (alignment_result_length libstdcxx (L "ABCDEFGH") 6 lp64_libstdcxx Hw).
Defined.


(** X3. A negative width is read as a huge [size_t]: [positioned] throws
    [std::length_error] at every offset, so do the three helpers, and
    [printline] throws without a call made, whatever the alignment. *)
Theorem negative_width_throws (lim : Limits) (content : wstring)
  (width : Z) (alignment : Aligned.t) :
  lp64 lim -> is_int width -> width < 0 ->
  wlength content <= wstring_max_size lim ->
  (forall offset : Z, is_int offset ->
     positioned lim content width offset = Throw) /\
  aligned_left lim content width = Throw /\
  centered lim content width = Throw /\
  aligned_right lim content width = Throw /\
  printline lim content width alignment = ([], Throw).
Proof.
  intros Hlim Hw Hneg Hmax.
  assert (Hpos : forall offset : Z, is_int offset ->
            positioned lim content width offset = Throw)
    by (intros offset Ho; now apply positioned_negative_width).
  assert (Hint : forall z, is_int (to_int z)) by (intros z; wrap_lia).
  assert (Hl : aligned_left lim content width = Throw)
    by (apply Hpos; unfold is_int, INT_MIN, INT_MAX; lia).
  assert (Hc : centered lim content width = Throw) by (apply Hpos, Hint).
  assert (Hr : aligned_right lim content width = Throw) by (apply Hpos, Hint).
  repeat split; try assumption.
  unfold printline. destruct alignment; rewrite ?Hr, ?Hl, ?Hc; reflexivity.
Qed.

Lemma negative_width_throws_witness :
  (is_int (-1) /\ -1 < 0 /\ wlength (L "AB") <= wstring_max_size libstdcxx) /\
  centered libstdcxx (L "AB") (-1) = Throw /\
  printline libstdcxx (L "AB") (-1) Aligned.left = ([], Throw).
Proof.
  assert (Hint : is_int (-1)) by (unfold is_int, INT_MIN, INT_MAX; lia).
  assert (Hmax : wlength (L "AB") <= wstring_max_size libstdcxx)
    by (cbn; lia).
  split; [repeat split; (exact Hint || exact Hmax || lia) |].
  destruct (negative_width_throws libstdcxx (L "AB") (-1) Aligned.left
              lp64_libstdcxx Hint ltac:(lia) Hmax)
    as (_ & _ & Hc & _ & Hp).
  split; [exact Hc | exact Hp].
Defined.


(** X4. When the offset pushes a content shorter than the width past the
    width, [offset + length > width], the count of trailing blanks wraps
    around and [positioned] throws, rather than returning a longer line. *)
Theorem offset_past_width_throws (lim : Limits) (content : wstring)
  (width offset : Z) :
  lp64 lim -> 0 <= offset <= INT_MAX -> width <= INT_MAX ->
  wlength content < width -> width < offset + wlength content ->
  positioned lim content width offset = Throw.
Proof. intros Hlim. now apply positioned_offset_past_width. Qed.

Lemma offset_past_width_throws_witness :
  (0 <= 5 <= INT_MAX /\ 6 <= INT_MAX /\ wlength (L "AB") < 6 /\
   6 < 5 + wlength (L "AB")) /\
  positioned libstdcxx (L "AB") 6 5 = Throw.
Proof.
  split; [unfold INT_MAX; cbn; lia |].
  refine (offset_past_width_throws libstdcxx (L "AB") 6 5 lp64_libstdcxx
            _ _ _ _);
    unfold INT_MAX; cbn; lia.
Defined.


(** ** Runs of characters, rows of cells *)

Lemma times_emit (k : nat) (c : call) :
  times k (emit c) = (repeat c k, Done tt).
Proof.
  induction k as [| k IH]; cbn [times repeat]; [reflexivity |].
  now rewrite bind_emit, IH.
Qed.

Lemma screen_repeat_addwstr (s : wstring) (k : nat) :
  screen (repeat (addwstr s) k) = concat (repeat s k).
Proof.
  induction k as [| k IH]; cbn [repeat concat]; [reflexivity |].
  change (addwstr s :: repeat (addwstr s) k)
    with ([addwstr s] ++ repeat (addwstr s) k).
  rewrite screen_app, IH. cbn. now rewrite app_nil_r.
Qed.

Lemma concat_repeat_c_str (c : wchar_t) (k : nat) :
  concat (repeat (c_str [c]) k) = c_str (repeat c k).
Proof.
  induction k as [| k IH]; cbn [repeat concat]; [reflexivity |].
  rewrite IH. cbn [c_str]. destruct (c =? NUL) eqn:Hc; [| reflexivity].
  destruct k; cbn [repeat c_str]; [| rewrite Hc]; reflexivity.
Qed.

(** X5. [n_strings(n, s)] writes [s] in [n] calls and nothing at all for
    [n <= 0]; [n_chars(n, c)] writes the [n] characters in one call, throws
    for a negative [n], and puts on the screen what [n_strings] does with
    the one-character string. *)
Theorem n_chars_n_strings (lim : Limits) (n : Z) (c : wchar_t)
  (s : wstring) :
  lp64 lim -> is_int n ->
  n_strings n s = (repeat (addwstr (c_str s)) (Z.to_nat n), Done tt) /\
  (n < 0 -> n_chars lim n c = ([], Throw)) /\
  (0 <= n ->
   n_chars lim n c = ([addwstr (c_str (repeat c (Z.to_nat n)))], Done tt) /\
   screen (calls (n_chars lim n c)) = screen (calls (n_strings n [c]))).
Proof.
  intros Hlim Hn. split; [apply times_emit |]. split.
  - intros Hneg. unfold n_chars, wstring_fill.
    destruct Hlim as [[Hlo Hhi] _].
    destruct (Z.leb_spec (to_size_t n) (wstring_max_size lim));
      [exfalso; wrap_lia | reflexivity].
  - intros Hpos.
    assert (Hrun : n_chars lim n c =
              ([addwstr (c_str (repeat c (Z.to_nat n)))], Done tt)).
    { unfold n_chars.
      rewrite to_size_t_small by (unfold_ints; lia).
      rewrite (wstring_fill_int lim Hlim) by (unfold_ints; lia).
      now rewrite bind_lift_Done. }
    split; [exact Hrun |].
    rewrite Hrun. unfold n_strings. rewrite times_emit.
    cbn [calls fst]. rewrite screen_repeat_addwstr, concat_repeat_c_str.
    cbn. now rewrite app_nil_r.
Qed.

Lemma n_chars_n_strings_witness :
  is_int 3 /\
  n_chars libstdcxx 3 120 = ([addwstr (L "xxx")], Done tt) /\
  n_strings 3 (L "x") =
    ([addwstr (L "x"); addwstr (L "x"); addwstr (L "x")], Done tt).
Proof.
  assert (Hint : is_int 3) by (unfold is_int, INT_MIN, INT_MAX; lia).
  split; [exact Hint |].
  destruct (n_chars_n_strings libstdcxx 3 120 (L "x") lp64_libstdcxx Hint)
    as (Hs & _ & Hc).
  split; [exact (proj1 (Hc ltac:(lia))) | exact Hs].
Defined.

Section Rows.

Variable lim : Limits.
Hypothesis Hlim : lp64 lim.
Variable style : MatrixStyle.

Lemma addwch_run (c : wchar_t) :
  addwch lim c = ([addwstr (c_str [c])], Done tt).
Proof.
  unfold addwch, n_chars.
  rewrite (to_size_t_small 1) by (unfold SIZE_MAX; lia).
  rewrite (wstring_fill_int lim Hlim) by (unfold INT_MAX; lia).
  now rewrite bind_lift_Done.
Qed.

Lemma cell_run (cell : Cell) (s : wstring) :
  centered lim (content cell) (cell_width style) = Done s ->
  bind (Color_ctor (color_code cell))
    (fun scoped =>
       scope_exit
         (printline lim (content cell) (cell_width style) Aligned.center)
         (Color_dtor scoped)) =
  (cell_calls (color_code cell) s, Done tt).
Proof.
  intros Hs. unfold printline. rewrite Hs, bind_lift_Done. reflexivity.
Qed.

Lemma bind_run {B : Type} (cs : list call) (f : unit -> M B) :
  bind (cs, Done tt) f = (cs ++ calls (f tt), result (f tt)).
Proof. unfold bind, calls, result. now destruct (f tt). Qed.

Lemma value_row_loop_run (inter : wchar_t) (row : list Cell)
  (texts : list wstring) :
  centered_row lim style row texts ->
  value_row_loop lim style inter false row =
    (flat_map (fun x => [addwstr (c_str [inter])] ++ x)
       (map (fun ct => cell_calls (color_code (fst ct)) (snd ct))
          (combine row texts)), Done tt) /\
  value_row_loop lim style inter true row =
    (interleaved [addwstr (c_str [inter])]
       (map (fun ct => cell_calls (color_code (fst ct)) (snd ct))
          (combine row texts)), Done tt).
Proof.
  induction 1 as [| cell s row texts Hc Hrow [IH _]];
    cbn [value_row_loop combine map flat_map interleaved fst snd].
  - split; reflexivity.
  - split.
    + rewrite addwch_run, bind_run. rewrite (cell_run cell s Hc), bind_run.
      rewrite IH. cbn [calls result fst snd]. now rewrite <- app_assoc.
    + rewrite bind_ret, (cell_run cell s Hc), bind_run, IH. reflexivity.
Qed.

Lemma value_row_run (row : list Cell) (texts : list wstring)
  (left inter right : wchar_t) :
  centered_row lim style row texts ->
  value_row lim style row left inter right =
    ([addwstr (c_str [left])] ++
     interleaved [addwstr (c_str [inter])]
       (map (fun ct => cell_calls (color_code (fst ct)) (snd ct))
          (combine row texts)) ++
     [addwstr (c_str [right]); addch newline], Done tt).
Proof.
  intros Hrow. unfold value_row.
  rewrite addwch_run, bind_run.
  rewrite (proj2 (value_row_loop_run inter row texts Hrow)), bind_run.
  rewrite addwch_run, bind_run. reflexivity.
Qed.

End Rows.

(** X6. In a style of non-negative width, [value_row] writes the left
    glyph, then for each cell the activation of the cell's own colour pair
    and of bold, the centred content, and the deactivation of a pair (the
    member never initialised) and of bold, with the intersection glyph
    between neighbouring cells only, then the right glyph and a newline; for
    an empty row just the two glyphs and the newline. *)
Theorem value_row_calls (lim : Limits) (style : MatrixStyle)
  (row : list Cell) (left inter right : wchar_t) :
  lp64 lim -> 0 <= cell_width style <= INT_MAX ->
  exists texts : list wstring,
    centered_row lim style row texts /\
    value_row lim style row left inter right =
      ([addwstr (c_str [left])] ++
       interleaved [addwstr (c_str [inter])]
         (map (fun ct => cell_calls (color_code (fst ct)) (snd ct))
            (combine row texts)) ++
       [addwstr (c_str [right]); addch newline], Done tt) /\
    (row = [] ->
     value_row lim style row left inter right =
       ([addwstr (c_str [left]); addwstr (c_str [right]); addch newline],
        Done tt)).
Proof.
  intros Hlim Hcw.
  destruct (centered_row_total lim Hlim style Hcw row) as [texts Htexts].
  exists texts. split; [exact Htexts |].
  pose proof (value_row_run lim Hlim style row texts left inter right Htexts)
    as Hrun.
  split; [exact Hrun |].
  intros ->. inversion Htexts; subst. exact Hrun.
Qed.

Lemma value_row_calls_witness :
  0 <= cell_width (MatrixStyle_ctor 3 1) <= INT_MAX /\
  value_row libstdcxx (MatrixStyle_ctor 3 1)
    [Cell_ctor (L "x") 5; Cell_ctor (L "yz") 2] 0x2503 0x2503 0x2503 =
    ([addwstr [0x2503];
      attron (COLOR_PAIR (Int 5)); attron A_BOLD; addwstr (L " x ");
      attroff (COLOR_PAIR Indeterminate); attroff A_BOLD;
      addwstr [0x2503];
      attron (COLOR_PAIR (Int 2)); attron A_BOLD; addwstr (L "yz ");
      attroff (COLOR_PAIR Indeterminate); attroff A_BOLD;
      addwstr [0x2503]; addch newline], Done tt).
Proof.
  assert (Hcw : 0 <= cell_width (MatrixStyle_ctor 3 1) <= INT_MAX)
    by (unfold INT_MAX; cbn; lia).
  split; [exact Hcw |].
  destruct (value_row_calls libstdcxx (MatrixStyle_ctor 3 1)
              [Cell_ctor (L "x") 5; Cell_ctor (L "yz") 2]
              0x2503 0x2503 0x2503 lp64_libstdcxx Hcw)
    as (texts & Htexts & Hrun & _).
  rewrite Hrun.
  inversion Htexts as [| c1 s1 r1 t1 Hs1 Hrest1]; subst.
  inversion Hrest1 as [| c2 s2 r2 t2 Hs2 Hrest2]; subst.
  inversion Hrest2; subst.
  vm_compute in Hs1. vm_compute in Hs2.
  injection Hs1 as <-. injection Hs2 as <-.
  reflexivity.
Defined.


(** ** Borders and degenerate styles *)

Lemma bind_ret_r (m : M unit) : bind m (fun _ => ret tt) = m.
Proof.
  destruct m as [cs [[] | |]]; cbn; try reflexivity. now rewrite app_nil_r.
Qed.

Lemma combine_repeat {A B : Type} (a : A) (b : B) (k : nat) :
  combine (repeat a k) (repeat b k) = repeat (a, b) k.
Proof. induction k as [| k IH]; cbn; [reflexivity | now rewrite IH]. Qed.

Section Borders.

Variable lim : Limits.
Hypothesis Hlim : lp64 lim.
Variable style : MatrixStyle.

Lemma sep_row_run (n : Z) (left plain inter right : wchar_t) :
  0 <= cell_width style <= INT_MAX -> 0 <= n <= INT_MAX ->
  sep_row lim style n left plain inter right =
    ([addwstr (c_str [left])] ++
     interleaved [addwstr (c_str [inter])]
       (repeat (cell_calls 0 (repeat plain (Z.to_nat (cell_width style))))
          (Z.to_nat n)) ++
     [addwstr (c_str [right]); addch newline], Done tt).
Proof.
  intros Hcw Hn. unfold sep_row.
  rewrite (wstring_fill_width lim Hlim style Hcw), bind_lift_Done.
  unfold vector_fill.
  rewrite to_size_t_small by (unfold INT_MAX, SIZE_MAX in *; lia).
  destruct Hlim as [_ Hvec].
  destruct (Z.leb_spec n (vector_max_size lim)); [| lia].
  rewrite bind_lift_Done.
  rewrite (value_row_run lim Hlim style _ (repeat (repeat plain (Z.to_nat (cell_width style))) (Z.to_nat n))).
  - now rewrite combine_repeat, map_repeat.
  - apply (centered_row_repeat lim style Hcw (Cell_ctor _ 0)).
    cbn [content Cell_ctor]. apply wlength_repeat. lia.
Qed.

Lemma sep_row_negative_width (n : Z) (left plain inter right : wchar_t) :
  is_int (cell_width style) -> cell_width style < 0 ->
  sep_row lim style n left plain inter right = ([], Throw).
Proof.
  intros Hint Hneg. unfold sep_row, wstring_fill.
  destruct Hlim as [[Hlo Hhi] _].
  destruct (Z.leb_spec (to_size_t (cell_width style)) (wstring_max_size lim));
    [exfalso; wrap_lia | reflexivity].
Qed.

End Borders.

(** X7. The three border rows of [n] columns are drawn through [value_row]:
    [n] runs of [cell_width] horizontal glyphs, each inside a colour scope of
    pair 0 with bold, the row's own intersection glyph between neighbouring
    runs and its own two end glyphs around them. *)
Theorem border_rows (lim : Limits) (cw ch n : Z) :
  lp64 lim -> 0 <= cw <= INT_MAX -> 0 <= n <= INT_MAX ->
  let style := MatrixStyle_ctor cw ch in
  let box := BoxStyle.default in
  let h := BoxStyle.horizontal (BoxStyle.borders box) in
  let segments :=
    repeat (cell_calls 0 (repeat h (Z.to_nat cw))) (Z.to_nat n) in
  let border (left inter right : wchar_t) : M unit :=
    ([addwstr [left]] ++ interleaved [addwstr [inter]] segments ++
     [addwstr [right]; addch newline], Done tt) in
  top_row lim style n =
    border (BoxStyle.top_left (BoxStyle.corners box))
      (BoxStyle.top (BoxStyle.intersections box))
      (BoxStyle.top_right (BoxStyle.corners box)) /\
  middle_row lim style n =
    border (BoxStyle.left (BoxStyle.intersections box))
      (BoxStyle.center (BoxStyle.intersections box))
      (BoxStyle.right (BoxStyle.intersections box)) /\
  bottom_row lim style n =
    border (BoxStyle.bottom_left (BoxStyle.corners box))
      (BoxStyle.bottom (BoxStyle.intersections box))
      (BoxStyle.bottom_right (BoxStyle.corners box)).
Proof.
  intros Hlim Hcw Hn style box h segments border.
  unfold top_row, middle_row, bottom_row.
  rewrite !(sep_row_run lim Hlim style) by assumption.
  repeat split.
Qed.

Lemma border_rows_witness :
  (0 <= 2 <= INT_MAX /\ 0 <= 2 <= INT_MAX) /\
  middle_row libstdcxx (MatrixStyle_ctor 2 1) 2 =
    ([addwstr [0x2523];
      attron (COLOR_PAIR (Int 0)); attron A_BOLD; addwstr [0x2501; 0x2501];
      attroff (COLOR_PAIR Indeterminate); attroff A_BOLD;
      addwstr [0x254B];
      attron (COLOR_PAIR (Int 0)); attron A_BOLD; addwstr [0x2501; 0x2501];
      attroff (COLOR_PAIR Indeterminate); attroff A_BOLD;
      addwstr [0x252B]; addch newline], Done tt).
Proof.
  assert (Hr : 0 <= 2 <= INT_MAX) by (unfold INT_MAX; lia).
  split; [split; exact Hr |].
  exact (proj1 (proj2 (border_rows libstdcxx 2 1 2 lp64_libstdcxx Hr Hr))).
Defined.


(** X8. With a negative cell width [print] throws [std::length_error] on
    any matrix that has a row, before a single call is made: the first
    border cannot be built. *)
Theorem print_negative_cell_width (lim : Limits) (style : MatrixStyle)
  (row : list Cell) (rest : list (list Cell)) :
  lp64 lim -> is_int (cell_width style) -> cell_width style < 0 ->
  print lim style (row :: rest) = ([], Throw).
Proof.
  intros Hlim Hint Hneg. unfold print.
  rewrite n_rows_cons, bind_ret. unfold top_row.
  now rewrite (sep_row_negative_width lim Hlim style).
Qed.

Lemma print_negative_cell_width_witness :
  (is_int (cell_width (MatrixStyle_ctor (-1) 1)) /\
   cell_width (MatrixStyle_ctor (-1) 1) < 0) /\
  print libstdcxx (MatrixStyle_ctor (-1) 1) [[Cell_ctor (L "x") 5]] =
    ([], Throw).
Proof.
  assert (Hint : is_int (cell_width (MatrixStyle_ctor (-1) 1)))
    by (unfold is_int, INT_MIN, INT_MAX; cbn; lia).
  assert (Hneg : cell_width (MatrixStyle_ctor (-1) 1) < 0) by (cbn; lia).
  split; [split; assumption |].
  exact (print_negative_cell_width libstdcxx (MatrixStyle_ctor (-1) 1)
           [Cell_ctor (L "x") 5] [] lp64_libstdcxx Hint Hneg).
Defined.


(** X9. With a cell height of one or less (zero and negative heights
    included) [values] is [value_row] on the row itself: the content line is
    written once and no padding line is. *)
Theorem values_without_padding (lim : Limits) (style : MatrixStyle)
  (row : list Cell) :
  lp64 lim -> 0 <= cell_width style <= INT_MAX ->
  INT_MIN < cell_height style <= 1 ->
  let v := BoxStyle.vertical (BoxStyle.borders (box_style style)) in
  values lim style row = value_row lim style row v v v.
Proof.
  intros Hlim Hcw Hch v. unfold values.
  rewrite (padding_loop_blanks lim Hlim style Hcw), bind_lift_Done.
  cbv zeta. fold v.
  assert (Htop : Z.to_nat (int_div (int_sub (cell_height style) line_height) 2)
                 = 0%nat).
  { unfold line_height, int_div, int_sub, to_int, INT_MIN in *.
    Z.to_euclidean_division_equations. lia. }
  assert (Hbot : Z.to_nat
                   (int_sub (cell_height style)
                      (int_add
                         (int_div (int_sub (cell_height style) line_height) 2)
                         line_height)) = 0%nat).
  { unfold line_height, int_div, int_sub, int_add, to_int, INT_MIN in *.
    Z.to_euclidean_division_equations. lia. }
  rewrite Htop, Hbot. cbn [times]. now rewrite bind_ret, bind_ret_r.
Qed.

Lemma values_without_padding_witness :
  (0 <= cell_width (MatrixStyle_ctor 2 0) <= INT_MAX /\
   INT_MIN < cell_height (MatrixStyle_ctor 2 0) <= 1) /\
  values libstdcxx (MatrixStyle_ctor 2 0) [Cell_ctor (L "x") 5] =
  value_row libstdcxx (MatrixStyle_ctor 2 0) [Cell_ctor (L "x") 5]
    0x2503 0x2503 0x2503.
Proof.
  assert (Hcw : 0 <= cell_width (MatrixStyle_ctor 2 0) <= INT_MAX)
    by (unfold INT_MAX; cbn; lia).
  assert (Hch : INT_MIN < cell_height (MatrixStyle_ctor 2 0) <= 1)
    by (unfold INT_MIN; cbn; lia).
  split; [split; assumption |].
  exact (values_without_padding libstdcxx (MatrixStyle_ctor 2 0)
           [Cell_ctor (L "x") 5] lp64_libstdcxx Hcw Hch).
Defined.


(** X10. [width_in_chars] makes no curses call; it stops at the assertion
    exactly on the matrix without a row, and it never throws. *)
Theorem width_in_chars_writes_nothing (style : MatrixStyle)
  (data : list (list Cell)) :
  calls (width_in_chars style data) = [] /\
  (result (width_in_chars style data) = Abort <-> data = []) /\
  result (width_in_chars style data) <> Throw.
Proof.
  destruct data as [| row rest].
  - split; [reflexivity |]. split; [split; reflexivity | discriminate].
  - unfold width_in_chars. rewrite n_rows_cons, bind_ret.
    split; [reflexivity |].
    split; [split; discriminate | discriminate].
Qed.

(** ** The whole grid *)

(** ** Texts as lists of lines *)

Lemma unlines_app (ls ls' : list wstring) :
  unlines (ls ++ ls') = unlines ls ++ unlines ls'.
Proof. apply flat_map_app. Qed.

Lemma unlines_repeat (l : wstring) (k : nat) :
  concat (repeat (l ++ [newline]) k) = unlines (repeat l k).
Proof.
  induction k as [| k IH]; cbn [repeat concat unlines flat_map];
    [reflexivity |].
  now rewrite IH.
Qed.

Lemma lines_unlines (ls : list wstring) (rest : wstring) :
  Forall one_line ls -> lines (unlines ls ++ rest) = ls ++ lines rest.
Proof.
  induction 1 as [| l ls Hl _ IH]; cbn [unlines flat_map app].
  - reflexivity.
  - rewrite <- app_assoc, lines_line by exact Hl.
    fold (unlines ls). now rewrite IH.
Qed.

Lemma unlines_interleaved (sep : list wstring) (groups : list (list wstring)) :
  unlines (interleaved sep groups) = joined (unlines sep) (map unlines groups).
Proof.
  destruct groups as [| g groups]; cbn [interleaved joined map];
    [reflexivity |].
  rewrite unlines_app. f_equal.
  induction groups as [| g' groups IH]; cbn [flat_map map]; [reflexivity |].
  now rewrite !unlines_app, IH, <- app_assoc.
Qed.

Lemma Forall_interleaved {A : Type} (P : A -> Prop) (sep : list A)
  (groups : list (list A)) :
  Forall P sep -> Forall (Forall P) groups -> Forall P (interleaved sep groups).
Proof.
  intros Hsep Hgroups. destruct Hgroups as [| g groups Hg Hrest];
    cbn [interleaved]; [constructor |].
  apply Forall_app. split; [exact Hg |].
  induction Hrest as [| g' groups Hg' _ IH]; cbn [flat_map]; [constructor |].
  repeat (apply Forall_app; split); assumption.
Qed.

Lemma length_interleaved {A : Type} (sep : list A) (groups : list (list A))
  (k : nat) :
  Forall (fun g => length g = k) groups -> groups <> [] ->
  length (interleaved sep groups) =
  (length groups * k + (length groups - 1) * length sep)%nat.
Proof.
  intros Hgroups Hne. destruct Hgroups as [| g groups Hg Hrest];
    [contradiction |].
  cbn [interleaved length]. rewrite length_app, Hg.
  assert (Hflat : length (flat_map (fun x => sep ++ x) groups) =
                  (length groups * (length sep + k))%nat).
  { clear Hne.
    induction Hrest as [| g' groups Hg' _ IH]; cbn [flat_map length].
    - reflexivity.
    - rewrite !length_app, IH, Hg'. lia. }
  rewrite Hflat. lia.
Qed.

Section Grid.

Variable lim : Limits.
Hypothesis Hlim : lp64 lim.
Variables cw ch : Z.
Hypothesis Hcw : 0 <= cw <= INT_MAX.
Hypothesis Hch : 1 <= ch <= INT_MAX.

Let style : MatrixStyle := MatrixStyle_ctor cw ch.
Let v : wstring := [BoxStyle.vertical (BoxStyle.borders BoxStyle.default)].

Lemma values_unlines (row : list Cell) (texts : list wstring) :
  centered_row lim style row texts ->
  shows (values lim style row) (unlines (row_lines cw ch row texts)).
Proof.
  intros Hrow.
  destruct (shows_values lim Hlim style Hcw Hch row texts Hrow) as [Hres Hscr].
  split; [exact Hres |]. rewrite Hscr.
  change (c_str [BoxStyle.vertical (BoxStyle.borders (box_style style))])
    with v.
  rewrite map_map.
  rewrite (map_ext _ (fun _ : Cell => repeat blank (Z.to_nat cw)))
    by (intros _; apply c_str_repeat; discriminate).
  cbn [cell_width cell_height style MatrixStyle_ctor].
  unfold row_lines. cbv zeta. fold v. rewrite !unlines_app, !unlines_repeat.
  cbn [unlines flat_map]. now rewrite app_nil_r.
Qed.

Lemma row_lines_one_line (row : list Cell) (texts : list wstring) :
  centered_row lim style row texts ->
  Forall (fun cell => one_line (content cell)) row ->
  Forall one_line (row_lines cw ch row texts).
Proof.
  intros Hrow Hcells.
  assert (Hv : one_line v) by (intros [H | []]; discriminate H).
  assert (Hbl : one_line
            (value_line v v v (map (fun _ => repeat blank (Z.to_nat cw)) row))).
  { apply one_line_value_line; try exact Hv.
    apply Forall_map, Forall_forall. intros _ _.
    apply one_line_repeat. discriminate. }
  unfold row_lines. cbv zeta. fold v. repeat (apply Forall_app; split).
  - apply Forall_forall. intros l Hl. apply repeat_spec in Hl. now subst.
  - constructor; [| constructor].
    apply one_line_value_line; try exact Hv.
    eapply centered_row_one_line; eassumption.
  - apply Forall_forall. intros l Hl. apply repeat_spec in Hl. now subst.
Qed.

Lemma values_lines (row : list Cell) (texts : list wstring) :
  centered_row lim style row texts ->
  Forall (fun cell => one_line (content cell)) row ->
  lines (screen (calls (values lim style row))) = row_lines cw ch row texts.
Proof.
  intros Hrow Hcells.
  destruct (values_unlines row texts Hrow) as [_ Hscr].
  rewrite Hscr, <- (app_nil_r (unlines _)), lines_unlines
    by now apply row_lines_one_line.
  apply app_nil_r.
Qed.

Lemma values_screen_unlines (row : list Cell) :
  Forall (fun cell => one_line (content cell)) row ->
  screen (calls (values lim style row)) =
  unlines (lines (screen (calls (values lim style row)))).
Proof.
  intros Hcells.
  destruct (centered_row_total lim Hlim style Hcw row) as [texts Htexts].
  rewrite (values_lines row texts Htexts Hcells).
  now destruct (values_unlines row texts Htexts).
Qed.

Lemma row_lines_length (row : list Cell) (texts : list wstring) :
  Z.of_nat (length (row_lines cw ch row texts)) = ch.
Proof.
  unfold row_lines. cbv zeta. rewrite !length_app, !repeat_length.
  cbn [length].
  assert (0 <= (ch - 1) / 2 <= ch - 1) by (Z.div_mod_to_equations; lia).
  lia.
Qed.

End Grid.

Lemma border_line_one_line (left inter right : wchar_t) (cw : Z) (n : nat) :
  left <> newline -> inter <> newline -> right <> newline ->
  one_line (border_line left inter right cw n).
Proof.
  intros Hl Hi Hr. unfold border_line.
  apply one_line_value_line;
    try (intros [H | []]; congruence).
  apply Forall_forall. intros l Hin. apply repeat_spec in Hin. subst l.
  apply one_line_repeat. discriminate.
Qed.

Section GridLines.

Variable lim : Limits.
Hypothesis Hlim : lp64 lim.
Variables cw ch : Z.
Hypothesis Hcw : 0 <= cw <= INT_MAX.
Hypothesis Hch : 1 <= ch <= INT_MAX.

Let style : MatrixStyle := MatrixStyle_ctor cw ch.

Lemma print_unlines (row : list Cell) (rest : list (list Cell)) :
  Z.of_nat (length row) <= INT_MAX ->
  Forall (Forall (fun cell => one_line (content cell))) (row :: rest) ->
  shows (print lim style (row :: rest))
    (unlines (grid_lines lim cw ch (row :: rest))).
Proof.
  intros Hlen Hcells.
  destruct (shows_print lim Hlim style Hcw Hch row rest Hlen) as [Hres Hscr].
  split; [exact Hres |]. rewrite Hscr. clear Hscr Hres.
  unfold grid_lines. cbv zeta. cbn [nth].
  rewrite !unlines_app, unlines_interleaved, map_map.
  rewrite (map_ext_in
             (fun x => unlines (lines (screen (calls (values lim
                         (MatrixStyle_ctor cw ch) x)))))
             (fun x => screen (calls (values lim style x)))).
  2:{ intros r Hr. symmetry.
      apply (values_screen_unlines lim Hlim cw ch Hcw Hch).
      rewrite Forall_forall in Hcells. now apply Hcells. }
  cbn [cell_width box_style style MatrixStyle_ctor].
  rewrite Nat2Z.id, c_str_repeat by discriminate.
  cbn [unlines flat_map]. rewrite !app_nil_r. reflexivity.
Qed.

Lemma grid_lines_one_line (row : list Cell) (rest : list (list Cell)) :
  Forall (Forall (fun cell => one_line (content cell))) (row :: rest) ->
  Forall one_line (grid_lines lim cw ch (row :: rest)).
Proof.
  intros Hcells. unfold grid_lines. cbv zeta.
  apply Forall_app; split; [| apply Forall_app; split].
  - constructor; [| constructor]. now apply border_line_one_line.
  - apply Forall_interleaved.
    + constructor; [| constructor]. now apply border_line_one_line.
    + apply Forall_map. rewrite Forall_forall in *. intros r Hr.
      destruct (centered_row_total lim Hlim style Hcw r) as [texts Htexts].
      rewrite (values_lines lim Hlim cw ch Hcw Hch r texts Htexts)
        by now apply Hcells.
      apply (row_lines_one_line lim cw ch r texts Htexts). now apply Hcells.
  - constructor; [| constructor]. now apply border_line_one_line.
Qed.

Lemma print_grid_lines (row : list Cell) (rest : list (list Cell)) :
  Z.of_nat (length row) <= INT_MAX ->
  Forall (Forall (fun cell => one_line (content cell))) (row :: rest) ->
  result (print lim style (row :: rest)) = Done tt /\
  lines (screen (calls (print lim style (row :: rest)))) =
  grid_lines lim cw ch (row :: rest).
Proof.
  intros Hlen Hcells.
  destruct (print_unlines row rest Hlen Hcells) as [Hres Hscr].
  split; [exact Hres |].
  rewrite Hscr, <- (app_nil_r (unlines _)), lines_unlines
    by now apply grid_lines_one_line.
  apply app_nil_r.
Qed.

Lemma grid_lines_length (data : list (list Cell)) :
  data <> [] ->
  Forall (Forall (fun cell => one_line (content cell))) data ->
  Z.of_nat (length (grid_lines lim cw ch data)) =
  Z.of_nat (length data) * (ch + 1) + 1.
Proof.
  intros Hne Hcells. unfold grid_lines. cbv zeta.
  rewrite !length_app.
  rewrite (length_interleaved _ _ (Z.to_nat ch)).
  - rewrite length_map. cbn [length].
    destruct data as [| row rest]; [contradiction |]. cbn [length]. nia.
  - apply Forall_map. rewrite Forall_forall in *. intros r Hr.
    destruct (centered_row_total lim Hlim style Hcw r) as [texts Htexts].
    rewrite (values_lines lim Hlim cw ch Hcw Hch r texts Htexts)
      by now apply Hcells.
    pose proof (row_lines_length cw ch Hch r texts). lia.
  - destruct data; [contradiction | discriminate].
Qed.

End GridLines.

Lemma c_str_id (s : wstring) : ~ In NUL s -> c_str s = s.
Proof.
  induction s as [| c s IH]; intros Hs; cbn [c_str]; [reflexivity |].
  destruct (Z.eqb_spec c NUL) as [-> | _].
  - exfalso. apply Hs. now left.
  - rewrite IH; [reflexivity |]. intros H. apply Hs. now right.
Qed.

Lemma wlength_value_line (a b c : wchar_t) (cells : list wstring) (w : Z) :
  cells <> [] -> Forall (fun s => wlength s = w) cells ->
  wlength (value_line [a] [b] [c] cells) =
  Z.of_nat (length cells) * (w + 1) + 1.
Proof.
  intros Hne Hcells. unfold value_line.
  rewrite !wlength_app. unfold wlength at 1 3. cbn [length].
  change (joined [b] cells) with (interleaved [b] cells).
  assert (0 <= w).
  { destruct Hcells as [| s cells Hs _]; [contradiction |].
    rewrite <- Hs. apply wlength_nonneg. }
  unfold wlength. rewrite (length_interleaved _ _ (Z.to_nat w)).
  - destruct cells as [| s cells]; [contradiction |]. cbn [length].
    unfold wstring, wchar_t in *.
    rewrite Nat2Z.inj_add, !Nat2Z.inj_mul, Z2Nat.id by exact H. lia.
  - eapply Forall_impl; [| exact Hcells]. cbn. unfold wlength. intros s Hs. lia.
  - exact Hne.
Qed.

Section Widths.

Variable lim : Limits.
Hypothesis Hlim : lp64 lim.
Variables cw ch : Z.
Hypothesis Hcw : 0 <= cw <= INT_MAX.
Hypothesis Hch : 1 <= ch <= INT_MAX.

Let style : MatrixStyle := MatrixStyle_ctor cw ch.

Lemma centered_fits (cell : Cell) (s : wstring) :
  fits cw cell -> centered lim (content cell) cw = Done s ->
  wlength (c_str s) = cw.
Proof.
  intros (Hlen & _ & Hnul) Hs.
  assert (Hplain : ~ In NUL s).
  { pose proof Hs as Hshape. apply positioned_shape in Hshape as (l & r & ->).
    intros Hin. apply in_app_or in Hin as [Hin | Hin];
      [| apply in_app_or in Hin as [Hin | Hin]];
      try (apply repeat_spec in Hin; discriminate Hin).
    contradiction. }
  rewrite (c_str_id s Hplain).
  destruct (Z.eq_dec (wlength (content cell)) cw) as [Heq | Hneq].
  - unfold centered in Hs. rewrite (positioned_overflow lim) in Hs by lia.
    now injection Hs as <-.
  - rewrite (centered_padded lim Hlim) in Hs by lia. injection Hs as <-.
    pose proof (wlength_nonneg (content cell)).
    rewrite !wlength_app, !wlength_repeat by (Z.div_mod_to_equations; lia).
    lia.
Qed.

Lemma row_lines_width (row : list Cell) (texts : list wstring) :
  row <> [] -> centered_row lim style row texts -> Forall (fits cw) row ->
  Forall (fun l => wlength l = Z.of_nat (length row) * (cw + 1) + 1)
    (row_lines cw ch row texts).
Proof.
  intros Hne Hrow Hfits.
  assert (Hblank :
    wlength (value_line [BoxStyle.vertical (BoxStyle.borders BoxStyle.default)]
               [BoxStyle.vertical (BoxStyle.borders BoxStyle.default)]
               [BoxStyle.vertical (BoxStyle.borders BoxStyle.default)]
               (map (fun _ => repeat blank (Z.to_nat cw)) row)) =
    Z.of_nat (length row) * (cw + 1) + 1).
  { rewrite (wlength_value_line _ _ _ _ cw).
    - now rewrite length_map.
    - destruct row; [contradiction | discriminate].
    - apply Forall_map, Forall_forall. intros _ _. apply wlength_repeat. lia. }
  assert (Htexts : Forall (fun s => wlength s = cw) (map c_str texts)).
  { clear Hne Hblank.
    induction Hrow as [| cell s row texts Hs _ IH]; cbn [map]; [constructor |].
    inversion Hfits; subst. constructor; [| now apply IH].
    now apply (centered_fits cell). }
  assert (Hlen : length (map c_str texts) = length row).
  { rewrite length_map. symmetry. eapply Forall2_length, Hrow. }
  unfold row_lines. cbv zeta. repeat (apply Forall_app; split).
  - apply Forall_forall. intros l Hl. apply repeat_spec in Hl. now subst.
  - constructor; [| constructor].
    rewrite (wlength_value_line _ _ _ _ cw), Hlen; [reflexivity | | exact Htexts].
    intros Hnil. rewrite Hnil in Hlen. destruct row; [contradiction | discriminate].
  - apply Forall_forall. intros l Hl. apply repeat_spec in Hl. now subst.
Qed.

Lemma border_line_width (left inter right : wchar_t) (n : nat) :
  n <> 0%nat ->
  wlength (border_line left inter right cw n) = Z.of_nat n * (cw + 1) + 1.
Proof.
  intros Hn. unfold border_line.
  rewrite (wlength_value_line _ _ _ _ cw).
  - now rewrite repeat_length.
  - destruct n; [contradiction | discriminate].
  - apply Forall_forall. intros l Hl. apply repeat_spec in Hl. subst l.
    apply wlength_repeat. lia.
Qed.

Lemma grid_lines_width (row : list Cell) (rest : list (list Cell)) :
  row <> [] ->
  Forall (fun r => length r = length row) rest ->
  Forall (Forall (fits cw)) (row :: rest) ->
  Forall (fun l => wlength l = Z.of_nat (length row) * (cw + 1) + 1)
    (grid_lines lim cw ch (row :: rest)).
Proof.
  intros Hne Hrect Hfits.
  assert (Hn : length row <> 0%nat) by (destruct row; [contradiction | discriminate]).
  unfold grid_lines. cbv zeta. cbn [nth].
  apply Forall_app; split; [| apply Forall_app; split].
  - constructor; [| constructor]. now apply border_line_width.
  - apply Forall_interleaved.
    + constructor; [| constructor]. now apply border_line_width.
    + apply Forall_map.
      assert (Hrows : Forall (fun r => length r = length row) (row :: rest))
        by (constructor; [reflexivity | exact Hrect]).
      rewrite Forall_forall in *. intros r Hr.
      destruct (centered_row_total lim Hlim style Hcw r) as [texts Htexts].
      assert (Hone : Forall (fun cell => one_line (content cell)) r).
      { eapply Forall_impl; [| apply (Hfits r Hr)]. intros cell H. apply H. }
      rewrite (values_lines lim Hlim cw ch Hcw Hch r texts Htexts Hone).
      rewrite <- (Hrows r Hr).
      apply (row_lines_width r texts); [| exact Htexts | now apply Hfits].
      intros ->. apply Hn. now rewrite <- (Hrows [] Hr).
  - constructor; [| constructor]. now apply border_line_width.
Qed.

End Widths.

(** X11. For a matrix of single-line cells with a first row, in a style of
    non-negative width and positive height, [print] returns and writes the
    top border, the lines of each row in order with one middle border
    between consecutive rows (none before the first, none after the last),
    and the bottom border; every border has as many runs as the first row has
    cells, whatever the other rows hold. *)
Theorem print_writes_grid (lim : Limits) (cw ch : Z) (row : list Cell)
  (rest : list (list Cell)) :
  lp64 lim -> 0 <= cw <= INT_MAX -> 1 <= ch <= INT_MAX ->
  Z.of_nat (length row) <= INT_MAX ->
  Forall (Forall (fun cell => one_line (content cell))) (row :: rest) ->
  result (print lim (MatrixStyle_ctor cw ch) (row :: rest)) = Done tt /\
  lines (screen (calls (print lim (MatrixStyle_ctor cw ch) (row :: rest)))) =
  grid_lines lim cw ch (row :: rest).
Proof. intros. now apply print_grid_lines. Qed.

Lemma print_writes_grid_witness :
  let data := [[Cell_ctor (L "a") 1; Cell_ctor (L "b") 2]; [Cell_ctor (L "c") 3]] in
  (0 <= 1 <= INT_MAX /\ 1 <= 1 <= INT_MAX /\
   Forall (Forall (fun cell => one_line (content cell))) data) /\
  lines (screen (calls (print libstdcxx (MatrixStyle_ctor 1 1) data))) =
    [ [0x250F; 0x2501; 0x2533; 0x2501; 0x2513];
      [0x2503; 97; 0x2503; 98; 0x2503];
      [0x2523; 0x2501; 0x254B; 0x2501; 0x252B];
      [0x2503; 99; 0x2503];
      [0x2517; 0x2501; 0x253B; 0x2501; 0x251B] ].
Proof.
  intros data.
  assert (Hr : 0 <= 1 <= INT_MAX) by (unfold INT_MAX; lia).
  assert (Hh : 1 <= 1 <= INT_MAX) by (unfold INT_MAX; lia).
  assert (Hcells : Forall (Forall (fun cell => one_line (content cell))) data).
  { repeat constructor; intros H; cbn in H; intuition discriminate. }
  split; [repeat split; try apply Hr; try lia; exact Hcells |].
  refine (eq_trans
            (proj2 (print_writes_grid libstdcxx 1 1
                      [Cell_ctor (L "a") 1; Cell_ctor (L "b") 2]
                      [[Cell_ctor (L "c") 3]] lp64_libstdcxx Hr Hh
                      ltac:(unfold INT_MAX; cbn; lia) Hcells)) _).
  reflexivity.
Defined.


(** X12. Under the same conditions [print] writes
    [rows * (cell_height + 1) + 1] lines. *)
Theorem print_line_count (lim : Limits) (cw ch : Z) (row : list Cell)
  (rest : list (list Cell)) :
  lp64 lim -> 0 <= cw <= INT_MAX -> 1 <= ch <= INT_MAX ->
  Z.of_nat (length row) <= INT_MAX ->
  Forall (Forall (fun cell => one_line (content cell))) (row :: rest) ->
  Z.of_nat
    (length
       (lines
          (screen (calls (print lim (MatrixStyle_ctor cw ch) (row :: rest))))))
  = Z.of_nat (length (row :: rest)) * (ch + 1) + 1.
Proof.
  intros Hlim Hcw Hch Hlen Hcells.
  rewrite (proj2 (print_grid_lines lim Hlim cw ch Hcw Hch row rest Hlen Hcells)).
  now apply grid_lines_length.
Qed.

Lemma print_line_count_witness :
  let data := [[Cell_ctor (L "x") 5; Cell_ctor (L "abc") 1];
               [Cell_ctor (L "y") 5; Cell_ctor (L "z") 1]] in
  (0 <= 2 <= INT_MAX /\ 1 <= 3 <= INT_MAX /\
   Forall (Forall (fun cell => one_line (content cell))) data) /\
  Z.of_nat
    (length (lines (screen (calls (print libstdcxx (MatrixStyle_ctor 2 3) data)))))
  = 9.
Proof.
  intros data.
  assert (Hcw : 0 <= 2 <= INT_MAX) by (unfold INT_MAX; lia).
  assert (Hch : 1 <= 3 <= INT_MAX) by (unfold INT_MAX; lia).
  assert (Hcells : Forall (Forall (fun cell => one_line (content cell))) data).
  { repeat constructor; intros H; cbn in H; intuition discriminate. }
  split; [repeat split; try apply Hcw; try apply Hch; exact Hcells |].
  exact (print_line_count libstdcxx 2 3
           [Cell_ctor (L "x") 5; Cell_ctor (L "abc") 1]
           [[Cell_ctor (L "y") 5; Cell_ctor (L "z") 1]] lp64_libstdcxx Hcw Hch
           ltac:(unfold INT_MAX; cbn; lia) Hcells).
Defined.


(** X13. For a rectangular matrix with at least one column whose contents
    fit their cells (no longer than [cell_width], one line, no NUL), every
    line [print] writes is exactly one character longer than what
    [width_in_chars] returns: the closing border glyph is not counted. *)
Theorem print_lines_one_wider_than_width_in_chars (lim : Limits) (cw ch : Z)
  (row : list Cell) (rest : list (list Cell)) :
  lp64 lim -> 0 <= cw <= INT_MAX -> 1 <= ch <= INT_MAX ->
  row <> [] -> is_int ((cw + 1) * Z.of_nat (length row)) ->
  Forall (fun r => length r = length row) rest ->
  Forall (Forall (fits cw)) (row :: rest) ->
  let style := MatrixStyle_ctor cw ch in
  exists w : Z,
    width_in_chars style (row :: rest) = ([], Done w) /\
    Forall (fun l => wlength l = w + 1)
      (lines (screen (calls (print lim style (row :: rest))))).
Proof.
  intros Hlim Hcw Hch Hne Hmul Hrect Hfits style.
  assert (Hpos : 1 <= Z.of_nat (length row))
    by (destruct row; [contradiction | cbn [length]; lia]).
  assert (Hlen : Z.of_nat (length row) <= INT_MAX)
    by (unfold is_int, INT_MIN, INT_MAX in *; nia).
  assert (Hw : is_int (cw + 1))
    by (unfold is_int, INT_MIN, INT_MAX in *; nia).
  exists ((cw + 1) * Z.of_nat (length row)). split.
  - unfold width_in_chars. rewrite n_rows_cons, bind_ret.
    unfold ret, int_mul, int_add. cbn [cell_width style MatrixStyle_ctor].
    rewrite (to_int_small (Z.of_nat _))
      by (unfold is_int, INT_MIN, INT_MAX in *; lia).
    now rewrite (to_int_small _ Hw), (to_int_small _ Hmul).
  - assert (Hcells : Forall (Forall (fun cell => one_line (content cell)))
                       (row :: rest)).
    { eapply Forall_impl; [| exact Hfits]. intros r Hr.
      eapply Forall_impl; [| exact Hr]. intros cell H. apply H. }
    unfold style.
    rewrite (proj2 (print_grid_lines lim Hlim cw ch Hcw Hch row rest Hlen
                      Hcells)).
    eapply Forall_impl;
      [| apply (grid_lines_width lim Hlim cw ch Hcw Hch row rest Hne Hrect
                  Hfits)].
    cbn beta. intros l ->. lia.
Qed.

Lemma print_lines_one_wider_than_width_in_chars_witness :
  let row := [Cell_ctor (L "x") 5; Cell_ctor (L "abc") 1] in
  let rest := [[Cell_ctor (L "y") 5; Cell_ctor (L "z") 1]] in
  (is_int ((3 + 1) * Z.of_nat (length row)) /\
   Forall (fun r => length r = length row) rest /\
   Forall (Forall (fits 3)) (row :: rest)) /\
  width_in_chars (MatrixStyle_ctor 3 2) (row :: rest) = ([], Done 8) /\
  Forall (fun l => wlength l = 9)
    (lines (screen (calls (print libstdcxx (MatrixStyle_ctor 3 2) (row :: rest))))).
Proof.
  intros row rest.
  assert (Hmul : is_int ((3 + 1) * Z.of_nat (length row)))
    by (unfold is_int, INT_MIN, INT_MAX; cbn; lia).
  assert (Hrect : Forall (fun r => length r = length row) rest)
    by (repeat constructor).
  assert (Hfits : Forall (Forall (fits 3)) (row :: rest)).
  { repeat constructor; cbn; try lia; intros H; cbn in H;
      intuition discriminate. }
  split; [split; [exact Hmul | split; [exact Hrect | exact Hfits]] |].
  destruct (print_lines_one_wider_than_width_in_chars libstdcxx 3 2 row rest
              lp64_libstdcxx ltac:(unfold INT_MAX; lia)
              ltac:(unfold INT_MAX; lia) ltac:(discriminate) Hmul Hrect Hfits)
    as (w & Hw & Hlines).
  split; [reflexivity |].
  vm_compute in Hw. injection Hw as <-. exact Hlines.
Defined.


(** * The variant with separator strings *)

Section SimpleHelpers.

Variable lim : Limits.

Lemma simple_positioned_writes (content : wstring) (width offset : Z) :
  Simple.positioned lim content (to_size_t width) offset =
  (s <- lift (positioned lim content width offset);;
   emit (addwstr (c_str s)))%M.
Proof.
  unfold Simple.positioned, positioned.
  destruct (to_size_t width <=? wlength content).
  - now rewrite bind_lift_Done.
  - destruct (wstring_fill lim (to_size_t offset) blank) as [l | |];
      cbn [obind]; [| reflexivity | reflexivity].
    rewrite bind_lift_Done.
    destruct (wstring_fill lim _ blank) as [r | |]; cbn [obind];
      [| reflexivity | reflexivity].
    now rewrite !bind_lift_Done.
Qed.

End SimpleHelpers.

(** X14. The alignment helpers of [matrix_display.hpp] write, in one
    [addwstr], exactly the line that the helpers of the box-drawing variant
    return for the same content and width, and they throw when those throw,
    with no call made. *)
Theorem simple_helpers_write_what_is_returned (lim : Limits)
  (content : wstring) (width : Z) :
  (forall offset : Z,
     Simple.positioned lim content (to_size_t width) offset =
     (s <- lift (positioned lim content width offset);;
      emit (addwstr (c_str s)))%M) /\
  Simple.centered lim content (to_size_t width) =
    (s <- lift (centered lim content width);; emit (addwstr (c_str s)))%M /\
  Simple.aligned_right lim content (to_size_t width) =
    (s <- lift (aligned_right lim content width);;
     emit (addwstr (c_str s)))%M /\
  Simple.aligned_left lim content (to_size_t width) =
    (s <- lift (aligned_left lim content width);;
     emit (addwstr (c_str s)))%M.
Proof.
  repeat split; intros; apply simple_positioned_writes.
Qed.

Lemma plain_repeat_addwstr (s : wstring) (k : nat) :
  forallb plain (repeat (addwstr s) k) = true.
Proof. induction k as [| k IH]; cbn [repeat forallb]; [reflexivity | exact IH]. Qed.

(** X15. The calls of the separator row of [matrix_display.hpp]: the
    corner string, then [n] times a run of [cell_width] row separators and
    the corner string, then the newline; no colour is activated, and for
    [n <= 0] only the corner and the newline are written. *)
Theorem simple_sep_row_calls (style : Simple.MatrixStyle) (n : Z) :
  let corner := addwstr (c_str (Simple.corner_sep style)) in
  let run :=
    repeat (addwstr (c_str (Simple.row_sep style)))
      (Z.to_nat (Simple.cell_width style)) in
  Simple.sep_row style n =
    ([corner] ++ concat (repeat (run ++ [corner]) (Z.to_nat n)) ++
     [addch newline], Done tt) /\
  activations (calls (Simple.sep_row style n)) = 0%nat /\
  (n <= 0 -> Simple.sep_row style n = ([corner; addch newline], Done tt)).
Proof.
  intros corner run.
  assert (Hbody :
    bind (n_strings (Simple.cell_width style) (Simple.row_sep style))
      (fun _ => Simple.corner style) = (run ++ [corner], Done tt)).
  { unfold n_strings. rewrite times_emit. reflexivity. }
  assert (Htimes : forall k,
    times k (bind (n_strings (Simple.cell_width style) (Simple.row_sep style))
               (fun _ => Simple.corner style)) =
    (concat (repeat (run ++ [corner]) k), Done tt)).
  { induction k as [| k IH]; cbn [times repeat concat]; [reflexivity |].
    rewrite IH, Hbody. reflexivity. }
  assert (Hrun : Simple.sep_row style n =
    ([corner] ++ concat (repeat (run ++ [corner]) (Z.to_nat n)) ++
     [addch newline], Done tt)).
  { unfold Simple.sep_row. rewrite Htimes. reflexivity. }
  split; [exact Hrun |]. split.
  - rewrite Hrun. cbn [calls fst].
    assert (Hblock : forallb plain (run ++ [corner]) = true).
    { rewrite forallb_app. subst run. now rewrite plain_repeat_addwstr. }
    assert (Hblocks : forall k,
              forallb plain (concat (repeat (run ++ [corner]) k)) = true).
    { induction k as [| k IH]; cbn [repeat concat]; [reflexivity |].
      now rewrite forallb_app, Hblock, IH. }
    assert (Hplain : forallb plain
              ([corner] ++ concat (repeat (run ++ [corner]) (Z.to_nat n)) ++
               [addch newline]) = true).
    { now rewrite !forallb_app, Hblocks. }
    apply (plain_counts _ Hplain).
  - intros Hn. rewrite Hrun.
    replace (Z.to_nat n) with 0%nat by lia. reflexivity.
Qed.


Lemma flat_map_sep_shift {A : Type} (sep : list A) (cells : list (list A)) :
  flat_map (fun x => sep ++ x) cells ++ sep =
  sep ++ flat_map (fun x => x ++ sep) cells.
Proof.
  induction cells as [| c cells IH]; cbn [flat_map].
  - now rewrite app_nil_r.
  - now rewrite <- !app_assoc, IH.
Qed.

Lemma joined_then_sep (sep : wstring) (cells : list wstring) :
  cells <> [] ->
  joined sep cells ++ sep = flat_map (fun x => x ++ sep) cells.
Proof.
  intros Hne. destruct cells as [| c cells]; [contradiction |].
  cbn [joined flat_map]. now rewrite <- !app_assoc, flat_map_sep_shift.
Qed.

Lemma concat_repeat_flat_map (x sep : wstring) (k : nat) :
  concat (repeat (x ++ sep) k) = flat_map (fun y => y ++ sep) (repeat x k).
Proof.
  induction k as [| k IH]; cbn [repeat concat flat_map]; [reflexivity |].
  now rewrite IH.
Qed.

Section SimpleLayout.

Variable lim : Limits.
Hypothesis Hlim : lp64 lim.
Variable style : Simple.MatrixStyle.
Hypothesis Hcw : 0 <= Simple.cell_width style <= INT_MAX.

(** Every cell of [row] can be centred in a cell of the style. *)
Let centred (row : list Cell) (texts : list wstring) : Prop :=
  Forall2
    (fun cell s =>
       centered lim (content cell) (Simple.cell_width style) = Done s)
    row texts.

Lemma simple_cell_run (cell : Cell) (s : wstring) :
  centered lim (content cell) (Simple.cell_width style) = Done s ->
  bind (Color_ctor (color_code cell))
    (fun scoped =>
       scope_exit
         (Simple.centered lim (content cell)
            (to_size_t (Simple.cell_width style)))
         (Color_dtor scoped)) =
  (cell_calls (color_code cell) s, Done tt).
Proof.
  intros Hs. unfold Simple.centered.
  rewrite simple_positioned_writes.
  fold (centered lim (content cell) (Simple.cell_width style)).
  rewrite Hs, bind_lift_Done. reflexivity.
Qed.

Lemma simple_value_loop_run (row : list Cell) (texts : list wstring) :
  centred row texts ->
  Simple.value_loop lim style row =
    (flat_map
       (fun ct => cell_calls (color_code (fst ct)) (snd ct) ++
                  [addwstr (c_str (Simple.col_sep style))])
       (combine row texts), Done tt).
Proof.
  induction 1 as [| cell s row texts Hc Hrow IH];
    cbn [Simple.value_loop combine flat_map fst snd]; [reflexivity |].
  rewrite (simple_cell_run cell s Hc), bind_run.
  unfold Simple.sep_col at 1. rewrite bind_emit, IH.
  cbn [calls result fst snd]. now rewrite <- app_assoc.
Qed.

Lemma simple_value_run (row : list Cell) (texts : list wstring) :
  centred row texts ->
  Simple.value lim style row =
    ([addwstr (c_str (Simple.col_sep style))] ++
     flat_map
       (fun ct => cell_calls (color_code (fst ct)) (snd ct) ++
                  [addwstr (c_str (Simple.col_sep style))])
       (combine row texts) ++
     [addch newline], Done tt).
Proof.
  intros Hrow. unfold Simple.value, Simple.sep_col.
  rewrite bind_emit, (simple_value_loop_run row texts Hrow), bind_run.
  reflexivity.
Qed.

Lemma centred_total (row : list Cell) : exists texts, centred row texts.
Proof.
  induction row as [| cell row [texts IH]].
  - exists []. constructor.
  - destruct (centered_total lim Hlim
                (MatrixStyle_ctor (Simple.cell_width style) 1) Hcw
                (content cell)) as [s Hs].
    exists (s :: texts). now constructor.
Qed.

End SimpleLayout.

(** X16. The calls of [value] in [matrix_display.hpp]: the column
    separator, then for each cell its colour scope around its centred text
    followed by the column separator, then the newline.  The scope is closed
    before the separator is written; an empty row writes one separator and
    the newline. *)
Theorem simple_value_calls (lim : Limits) (style : Simple.MatrixStyle)
  (row : list Cell) :
  lp64 lim -> 0 <= Simple.cell_width style <= INT_MAX ->
  let sep := addwstr (c_str (Simple.col_sep style)) in
  exists texts : list wstring,
    Forall2
      (fun cell s =>
         centered lim (content cell) (Simple.cell_width style) = Done s)
      row texts /\
    Simple.value lim style row =
      ([sep] ++
       flat_map
         (fun ct => cell_calls (color_code (fst ct)) (snd ct) ++ [sep])
         (combine row texts) ++
       [addch newline], Done tt) /\
    (row = [] -> Simple.value lim style row = ([sep; addch newline], Done tt)).
Proof.
  intros Hlim Hcw sep.
  destruct (centred_total lim Hlim style Hcw row) as [texts Htexts].
  exists texts. split; [exact Htexts |].
  pose proof (simple_value_run lim style row texts Htexts) as Hrun.
  split; [exact Hrun |].
  intros ->. inversion Htexts; subst. exact Hrun.
Qed.

Lemma simple_value_calls_witness :
  0 <= Simple.cell_width
         (Simple.MatrixStyle_ctor 3 1 (L "-") (L "|") (L "+")) <= INT_MAX /\
  Simple.value libstdcxx
    (Simple.MatrixStyle_ctor 3 1 (L "-") (L "|") (L "+"))
    [Cell_ctor (L "x") 5; Cell_ctor (L "yz") 2] =
    ([addwstr (L "|");
      attron (COLOR_PAIR (Int 5)); attron A_BOLD; addwstr (L " x ");
      attroff (COLOR_PAIR Indeterminate); attroff A_BOLD;
      addwstr (L "|");
      attron (COLOR_PAIR (Int 2)); attron A_BOLD; addwstr (L "yz ");
      attroff (COLOR_PAIR Indeterminate); attroff A_BOLD;
      addwstr (L "|"); addch newline], Done tt).
Proof.
  set (style := Simple.MatrixStyle_ctor 3 1 (L "-") (L "|") (L "+")).
  assert (Hcw : 0 <= Simple.cell_width style <= INT_MAX)
    by (unfold INT_MAX; cbn; lia).
  split; [exact Hcw |].
  destruct (simple_value_calls libstdcxx style
              [Cell_ctor (L "x") 5; Cell_ctor (L "yz") 2]
              lp64_libstdcxx Hcw)
    as (texts & Htexts & Hrun & _).
  rewrite Hrun.
  inversion Htexts as [| c1 s1 r1 t1 Hs1 Hrest1]; subst.
  inversion Hrest1 as [| c2 s2 r2 t2 Hs2 Hrest2]; subst.
  inversion Hrest2; subst.
  vm_compute in Hs1. vm_compute in Hs2.
  injection Hs1 as <-. injection Hs2 as <-.
  reflexivity.
Defined.


Section SameScreen.

Variable lim : Limits.
Hypothesis Hlim : lp64 lim.
Variables cw ch : Z.
Hypothesis Hcw : 0 <= cw <= INT_MAX.
Hypothesis Hch : 1 <= ch <= INT_MAX.
Variables c h v : wchar_t.

Let simple : Simple.MatrixStyle :=
  {| Simple.cell_width := cw; Simple.cell_height := ch;
     Simple.row_sep := [h]; Simple.col_sep := [v];
     Simple.corner_sep := [c] |}.
Let box : MatrixStyle :=
  {| cell_width := cw; cell_height := ch; box_style := uniform_box c h v |}.

Lemma simple_centered_shows (content s : wstring) :
  centered lim content cw = Done s ->
  shows (Simple.centered lim content (to_size_t cw)) (c_str s).
Proof.
  intros Hs. unfold Simple.centered. rewrite simple_positioned_writes.
  fold (centered lim content cw). rewrite Hs, bind_lift_Done.
  apply (shows_emit (addwstr _)).
Qed.

Lemma simple_value_loop_shows (row : list Cell) (texts : list wstring) :
  centered_row lim box row texts ->
  shows (Simple.value_loop lim simple row)
    (flat_map (fun x => x ++ c_str [v]) (map c_str texts)).
Proof.
  induction 1 as [| cell s row texts Hs _ IH];
    cbn [Simple.value_loop map flat_map].
  - apply shows_ret.
  - rewrite <- app_assoc.
    apply shows_bind; [apply shows_scope, simple_centered_shows, Hs |].
    apply shows_bind; [apply (shows_emit (addwstr _)) | exact IH].
Qed.

Lemma simple_value_shows (row : list Cell) (texts : list wstring) :
  row <> [] -> centered_row lim box row texts ->
  shows (Simple.value lim simple row)
    (value_line (c_str [v]) (c_str [v]) (c_str [v]) (map c_str texts)
     ++ [newline]).
Proof.
  intros Hne Hrow. unfold value_line.
  rewrite joined_then_sep, <- app_assoc.
  - unfold Simple.value.
    apply shows_bind; [apply (shows_emit (addwstr _)) |].
    apply shows_bind; [now apply simple_value_loop_shows | apply shows_end_line].
  - intros Hnil. apply map_eq_nil in Hnil. subst texts.
    inversion Hrow; subst. contradiction.
Qed.

Lemma centered_empty : centered lim [] cw = Done (repeat blank (Z.to_nat cw)).
Proof.
  destruct (Z.eq_dec cw 0) as [-> | Hpos].
  - reflexivity.
  - rewrite (centered_padded lim Hlim)
      by (unfold wlength; cbn [length Z.of_nat]; lia).
    cbn [app wlength length Z.of_nat]. rewrite <- repeat_app. do 2 f_equal.
    Z.div_mod_to_equations. lia.
Qed.

Lemma simple_padding_centered (row : list Cell) :
  centered_row lim box
    (map (fun cell => {| content := []; color_code := color_code cell |}) row)
    (map (fun _ => repeat blank (Z.to_nat cw)) row).
Proof.
  induction row as [| cell row IH]; cbn [map]; constructor; [| exact IH].
  apply centered_empty.
Qed.

Lemma simple_values_shows (row : list Cell) :
  row <> [] ->
  shows (Simple.values lim simple row) (screen (calls (values lim box row))).
Proof.
  intros Hne.
  destruct (centered_row_total lim Hlim box Hcw row) as [texts Htexts].
  destruct (shows_values lim Hlim box Hcw Hch row texts Htexts) as [_ Hscr].
  rewrite Hscr. clear Hscr.
  unfold Simple.values, Simple.value_padding.
  cbn [Simple.cell_height simple].
  pose proof (bottom_pad_eq box Hch) as Hbot.
  pose proof (top_pad_eq box Hch) as Htop.
  cbn [cell_height box] in Hbot, Htop. rewrite Hbot, Htop.
  cbn [cell_height cell_width box_style box uniform_box BoxStyle.borders
       BoxStyle.vertical].
  assert (Hblank :
    shows (Simple.value lim simple
             (map (fun cell => {| content := []; color_code := color_code cell |})
                row))
      (value_line (c_str [v]) (c_str [v]) (c_str [v])
         (map c_str (map (fun _ => repeat blank (Z.to_nat cw)) row))
       ++ [newline])).
  { apply simple_value_shows; [| apply simple_padding_centered].
    intros Hnil. apply map_eq_nil in Hnil. contradiction. }
  apply shows_bind; [apply shows_times, Hblank |].
  apply shows_bind; [now apply simple_value_shows |].
  apply shows_times, Hblank.
Qed.

Lemma simple_sep_row_shows (n : Z) :
  0 < n ->
  shows (Simple.sep_row simple n)
    (value_line (c_str [c]) (c_str [c]) (c_str [c])
       (repeat (c_str (repeat h (Z.to_nat cw))) (Z.to_nat n))
     ++ [newline]).
Proof.
  intros Hn. unfold value_line.
  rewrite joined_then_sep, <- concat_repeat_flat_map, <- app_assoc.
  - unfold Simple.sep_row.
    apply shows_bind; [apply (shows_emit (addwstr _)) |].
    apply shows_bind; [| apply shows_end_line].
    apply shows_times.
    apply shows_bind; [| apply (shows_emit (addwstr _))].
    unfold n_strings. cbn [Simple.cell_width Simple.row_sep simple].
    rewrite <- concat_repeat_c_str.
    apply shows_times, (shows_emit (addwstr _)).
  - intros Hnil. apply (f_equal (@length _)) in Hnil.
    rewrite repeat_length in Hnil. cbn in Hnil. lia.
Qed.

Lemma simple_print_loop_shows (n : Z) (data : list (list Cell)) (border : wstring) :
  Forall (fun r => r <> []) data ->
  shows (Simple.sep_row simple n) border ->
  shows (Simple.print_loop lim simple n data)
    (flat_map (fun x => x ++ border)
       (map (fun r => screen (calls (values lim box r))) data)).
Proof.
  intros Hrows Hborder.
  induction Hrows as [| r data Hr _ IH]; cbn [Simple.print_loop map flat_map].
  - apply shows_ret.
  - rewrite <- app_assoc.
    apply shows_bind; [now apply simple_values_shows |].
    apply shows_bind; assumption.
Qed.

Lemma simple_print_same_text (row : list Cell) (rest : list (list Cell)) :
  Z.of_nat (length row) <= INT_MAX ->
  Forall (fun r => r <> []) (row :: rest) ->
  shows (Simple.print lim simple (row :: rest))
    (screen (calls (print lim box (row :: rest)))).
Proof.
  intros Hlen Hrows.
  assert (Hn : 0 < Z.of_nat (length row)).
  { inversion Hrows as [| r rs Hr _]; subst. destruct row; [contradiction |].
    cbn [length]. lia. }
  destruct (shows_print lim Hlim box Hcw Hch row rest Hlen) as [_ Hscr].
  rewrite Hscr. clear Hscr.
  cbn [box_style box uniform_box BoxStyle.corners BoxStyle.intersections
       BoxStyle.borders BoxStyle.top_left BoxStyle.top_right
       BoxStyle.bottom_left BoxStyle.bottom_right BoxStyle.top BoxStyle.bottom
       BoxStyle.left BoxStyle.right BoxStyle.center BoxStyle.horizontal
       cell_width].
  rewrite Nat2Z.id.
  rewrite joined_then_sep by discriminate.
  unfold Simple.print. rewrite n_rows_cons, bind_ret.
  rewrite to_int_small by (unfold is_int, INT_MIN, INT_MAX in *; lia).
  pose proof (simple_sep_row_shows (Z.of_nat (length row)) Hn) as Hborder.
  rewrite Nat2Z.id in Hborder.
  apply shows_bind; [exact Hborder |].
  now apply simple_print_loop_shows.
Qed.

End SameScreen.

(** X17. With one-glyph separators, the variant with separator strings
    puts on the screen what the box-drawing variant puts there with a box
    style whose corners and intersections are all the corner glyph: both
    return, and the texts written are equal. *)
Theorem simple_print_same_screen (lim : Limits) (cw ch : Z) (c h v : wchar_t)
  (row : list Cell) (rest : list (list Cell)) :
  lp64 lim -> 0 <= cw <= INT_MAX -> 1 <= ch <= INT_MAX ->
  Z.of_nat (length row) <= INT_MAX ->
  Forall (fun r => r <> []) (row :: rest) ->
  let simple :=
    {| Simple.cell_width := cw; Simple.cell_height := ch;
       Simple.row_sep := [h]; Simple.col_sep := [v];
       Simple.corner_sep := [c] |} in
  let box :=
    {| cell_width := cw; cell_height := ch;
       box_style := uniform_box c h v |} in
  result (Simple.print lim simple (row :: rest)) = Done tt /\
  result (print lim box (row :: rest)) = Done tt /\
  screen (calls (Simple.print lim simple (row :: rest))) =
  screen (calls (print lim box (row :: rest))).
Proof.
  intros Hlim Hcw Hch Hlen Hrows simple box.
  destruct (simple_print_same_text lim Hlim cw ch Hcw Hch c h v row rest
              Hlen Hrows) as [Hres Hscr].
  destruct (shows_print lim Hlim box Hcw Hch row rest Hlen) as [Hres' _].
  repeat split; assumption.
Qed.

Lemma simple_print_same_screen_witness :
  (0 <= 3 <= INT_MAX /\ 1 <= 2 <= INT_MAX /\
   Z.of_nat (length [Cell_ctor (L "x") 5; Cell_ctor (L "yz") 2]) <= INT_MAX) /\
  screen
    (calls
       (Simple.print libstdcxx
          {| Simple.cell_width := 3; Simple.cell_height := 2;
             Simple.row_sep := [0x2D]; Simple.col_sep := [0x7C];
             Simple.corner_sep := [0x2B] |}
          [[Cell_ctor (L "x") 5; Cell_ctor (L "yz") 2]; [Cell_ctor (L "w") 3]])) =
  screen
    (calls
       (print libstdcxx
          {| cell_width := 3; cell_height := 2;
             box_style := uniform_box 0x2B 0x2D 0x7C |}
          [[Cell_ctor (L "x") 5; Cell_ctor (L "yz") 2]; [Cell_ctor (L "w") 3]])).
Proof.
  assert (Hcw : 0 <= 3 <= INT_MAX) by (unfold INT_MAX; lia).
  assert (Hch : 1 <= 2 <= INT_MAX) by (unfold INT_MAX; lia).
  assert (Hlen : Z.of_nat (length [Cell_ctor (L "x") 5; Cell_ctor (L "yz") 2])
                 <= INT_MAX) by (unfold INT_MAX; cbn; lia).
  assert (Hrows : Forall (fun r : list Cell => r <> [])
                    [[Cell_ctor (L "x") 5; Cell_ctor (L "yz") 2];
                     [Cell_ctor (L "w") 3]])
    by (repeat constructor; discriminate).
  split; [repeat split; first [apply Hcw | apply Hch | exact Hlen] |].
  exact (proj2 (proj2
           (simple_print_same_screen libstdcxx 3 2 0x2B 0x2D 0x7C
              [Cell_ctor (L "x") 5; Cell_ctor (L "yz") 2]
              [[Cell_ctor (L "w") 3]]
              lp64_libstdcxx Hcw Hch Hlen Hrows))).
Defined.


Section SimpleScopes.

Variable lim : Limits.

Lemma quiet_simple_positioned (content : wstring) (width offset : Z) :
  quiet (Simple.positioned lim content width offset).
Proof.
  unfold Simple.positioned. destruct (width <=? wlength content).
  - now apply quiet_emit.
  - apply quiet_bind; [apply quiet_lift, wstring_fill_no_abort | intros l].
    apply quiet_bind; [apply quiet_lift, wstring_fill_no_abort | intros r].
    now apply quiet_emit.
Qed.

Variable style : Simple.MatrixStyle.

Lemma quiet_simple_sep_col : quiet (Simple.sep_col style).
Proof. now apply quiet_emit. Qed.

Lemma tidy_simple_value_loop (row : list Cell) :
  tidy (Simple.value_loop lim style row).
Proof.
  induction row as [| cell row IH]; cbn [Simple.value_loop].
  - apply tidy_ret.
  - apply tidy_bind; [apply tidy_scope, quiet_simple_positioned | intros _].
    apply tidy_bind; [apply quiet_tidy, quiet_simple_sep_col | intros _].
    exact IH.
Qed.

Lemma tidy_simple_value (row : list Cell) : tidy (Simple.value lim style row).
Proof.
  unfold Simple.value.
  apply tidy_bind; [apply quiet_tidy, quiet_simple_sep_col | intros _].
  apply tidy_bind; [apply tidy_simple_value_loop | intros _].
  apply quiet_tidy, quiet_end_line.
Qed.

Lemma tidy_simple_values (row : list Cell) : tidy (Simple.values lim style row).
Proof.
  unfold Simple.values, Simple.value_padding.
  apply tidy_bind; [apply tidy_times, tidy_simple_value | intros _].
  apply tidy_bind; [apply tidy_simple_value | intros _].
  apply tidy_times, tidy_simple_value.
Qed.

Lemma tidy_simple_sep_row (n : Z) : tidy (Simple.sep_row style n).
Proof.
  unfold Simple.sep_row.
  apply tidy_bind; [apply quiet_tidy; now apply quiet_emit | intros _].
  apply tidy_bind; [| intros _; apply quiet_tidy, quiet_end_line].
  apply tidy_times. apply tidy_bind.
  - unfold n_strings. apply tidy_times, quiet_tidy. now apply quiet_emit.
  - intros _. apply quiet_tidy. now apply quiet_emit.
Qed.

Lemma tidy_simple_print_loop (n : Z) (data : list (list Cell)) :
  tidy (Simple.print_loop lim style n data).
Proof.
  induction data as [| row data IH]; cbn [Simple.print_loop].
  - apply tidy_ret.
  - apply tidy_bind; [apply tidy_simple_values | intros _].
    apply tidy_bind; [apply tidy_simple_sep_row | intros _; exact IH].
Qed.

Lemma tidy_simple_print_body (n : Z) (data : list (list Cell)) :
  tidy (bind (Simple.sep_row style n)
          (fun _ => Simple.print_loop lim style n data)).
Proof.
  apply tidy_bind; [apply tidy_simple_sep_row | intros _].
  apply tidy_simple_print_loop.
Qed.

End SimpleScopes.

Section SimpleSpares.

Variable lim : Limits.

Lemma spares_simple_positioned (content : wstring) (width offset : Z) :
  every_call spares_pairs (Simple.positioned lim content width offset).
Proof.
  unfold Simple.positioned. destruct (width <=? wlength content).
  - now apply every_emit.
  - apply every_bind; [apply every_lift | intros l].
    apply every_bind; [apply every_lift | intros r].
    now apply every_emit.
Qed.

Variable style : Simple.MatrixStyle.

Lemma spares_simple_value (row : list Cell) :
  every_call spares_pairs (Simple.value lim style row).
Proof.
  unfold Simple.value.
  apply every_bind; [now apply every_emit | intros _].
  apply every_bind; [| intros _; now apply every_emit].
  induction row as [| cell row IH]; cbn [Simple.value_loop].
  - apply every_ret.
  - apply every_bind; [apply spares_scope, spares_simple_positioned |].
    intros _. apply every_bind; [now apply every_emit | intros _; exact IH].
Qed.

Lemma spares_simple_values (row : list Cell) :
  every_call spares_pairs (Simple.values lim style row).
Proof.
  unfold Simple.values, Simple.value_padding.
  apply every_bind; [apply every_times, spares_simple_value | intros _].
  apply every_bind; [apply spares_simple_value | intros _].
  apply every_times, spares_simple_value.
Qed.

Lemma spares_simple_sep_row (n : Z) :
  every_call spares_pairs (Simple.sep_row style n).
Proof.
  unfold Simple.sep_row.
  apply every_bind; [now apply every_emit | intros _].
  apply every_bind; [| intros _; now apply every_emit].
  apply every_times, every_bind.
  - unfold n_strings. apply every_times. now apply every_emit.
  - intros _. now apply every_emit.
Qed.

Lemma spares_simple_print (data : list (list Cell)) :
  every_call spares_pairs (Simple.print lim style data).
Proof.
  unfold Simple.print. destruct data as [| row rest]; [reflexivity |].
  rewrite n_rows_cons, bind_ret.
  apply every_bind; [apply spares_simple_sep_row | intros _].
  generalize (row :: rest). intros data.
  induction data as [| r data IH]; cbn [Simple.print_loop].
  - apply every_ret.
  - apply every_bind; [apply spares_simple_values | intros _].
    apply every_bind; [apply spares_simple_sep_row | intros _; exact IH].
Qed.

End SimpleSpares.

(** X18. In [matrix_display.hpp] too, whatever the style and the matrix
    and however the call ends, [print] makes as many [attroff] calls as
    [attron] calls, every activation of a pair and bold being followed, after
    calls that touch no attribute, by the deactivation of a pair and bold;
    and no [attroff] names a colour pair by its number, the destructor of
    [Color] passing the member nothing initialises.  [print] stops at the
    assertion exactly on the matrix without a row, with no call made. *)
Theorem simple_print_attribute_calls (lim : Limits)
  (style : Simple.MatrixStyle) (data : list (list Cell)) :
  activations (calls (Simple.print lim style data)) =
  deactivations (calls (Simple.print lim style data)) /\
  scopes_closed (calls (Simple.print lim style data)) /\
  (forall n : Z,
     ~ In (attroff (COLOR_PAIR (Int n)))
         (calls (Simple.print lim style data))) /\
  (result (Simple.print lim style data) = Abort <-> data = []) /\
  (data = [] -> calls (Simple.print lim style data) = []).
Proof.
  assert (Hspares : forall n : Z,
            ~ In (attroff (COLOR_PAIR (Int n)))
                (calls (Simple.print lim style data)))
    by (intros n; apply spares_not_In, spares_simple_print).
  destruct data as [| row rest].
  - repeat split; try reflexivity; [apply closed_nil | exact Hspares].
  - revert Hspares. unfold Simple.print. rewrite n_rows_cons, bind_ret.
    intros Hspares.
    destruct (tidy_simple_print_body lim style
                (to_int (Z.of_nat (length row))) (row :: rest))
      as [Hres Hclosed].
    split; [now apply scopes_closed_counts |]. split; [exact Hclosed |].
    split; [exact Hspares |].
    split; [split; [intros H; contradiction | discriminate] | discriminate].
Qed.


Lemma concat_repeat_singleton {A : Type} (a : A) (k : nat) :
  concat (repeat ([] ++ [a]) k) = repeat a k.
Proof. induction k as [| k IH]; cbn; [reflexivity | now rewrite <- IH]. Qed.

Lemma bind_thrown {A B : Type} (cs : list call) (f : A -> M B) :
  bind (cs, Throw) f = (cs, Throw).
Proof. reflexivity. Qed.

Lemma times_thrown (cs : list call) (k : nat) (next : M unit) :
  next = (cs, Throw) ->
  bind (times k (cs, Throw)) (fun _ => next) = (cs, Throw).
Proof.
  intros ->. destruct k as [| k]; cbn [times]; [| reflexivity].
  unfold ret, bind. now cbn.
Qed.

Section SimpleNegativeWidth.

Variable lim : Limits.
Hypothesis Hlim : lp64 lim.
Variable style : Simple.MatrixStyle.
Hypothesis Hint : is_int (Simple.cell_width style).
Hypothesis Hneg : Simple.cell_width style < 0.

Lemma simple_cell_thrown (cell : Cell) :
  wlength (content cell) <= wstring_max_size lim ->
  bind (Color_ctor (color_code cell))
    (fun scoped =>
       scope_exit
         (Simple.centered lim (content cell)
            (to_size_t (Simple.cell_width style)))
         (Color_dtor scoped)) =
  (empty_scope (color_code cell), Throw).
Proof.
  intros Hmax. unfold Simple.centered. rewrite simple_positioned_writes.
  rewrite (positioned_negative_width lim Hlim) by
    (try assumption; wrap_lia).
  reflexivity.
Qed.

Lemma simple_value_thrown (cell : Cell) (row : list Cell) :
  wlength (content cell) <= wstring_max_size lim ->
  Simple.value lim style (cell :: row) =
    (addwstr (c_str (Simple.col_sep style)) :: empty_scope (color_code cell),
     Throw).
Proof.
  intros Hmax. unfold Simple.value. cbn [Simple.value_loop].
  rewrite (simple_cell_thrown cell Hmax). reflexivity.
Qed.

Lemma simple_values_thrown (cell : Cell) (row : list Cell) :
  wlength (content cell) <= wstring_max_size lim ->
  Simple.values lim style (cell :: row) =
    (addwstr (c_str (Simple.col_sep style)) :: empty_scope (color_code cell),
     Throw).
Proof.
  intros Hmax. unfold Simple.values, Simple.value_padding. cbn [map].
  rewrite (simple_value_thrown cell row Hmax).
  rewrite (simple_value_thrown
             {| content := []; color_code := color_code cell |}).
  - cbn [color_code]. now apply times_thrown.
  - destruct Hlim as [[Hlo _] _]. unfold wlength, INT_MAX in *.
    cbn [content length Z.of_nat]. lia.
Qed.

End SimpleNegativeWidth.

(** X19. With a negative cell width [print] of [matrix_display.hpp]
    throws [std::length_error] at the first cell: the first separator row
    (corners only), one column separator and the cell's colour scope, opened
    and closed around nothing, are all that is written: the destructor runs
    while the exception unwinds. *)
Theorem simple_print_negative_cell_width (lim : Limits)
  (style : Simple.MatrixStyle) (cell : Cell) (row : list Cell)
  (rest : list (list Cell)) :
  lp64 lim ->
  is_int (Simple.cell_width style) -> Simple.cell_width style < 0 ->
  wlength (content cell) <= wstring_max_size lim ->
  let corner := addwstr (c_str (Simple.corner_sep style)) in
  let n := to_int (Z.of_nat (length (cell :: row))) in
  Simple.print lim style ((cell :: row) :: rest) =
    ([corner] ++ repeat corner (Z.to_nat n) ++ [addch newline] ++
     [addwstr (c_str (Simple.col_sep style))] ++
     empty_scope (color_code cell), Throw) /\
  scopes_closed (calls (Simple.print lim style ((cell :: row) :: rest))).
Proof.
  intros Hlim Hint Hneg Hmax corner n.
  assert (Hrun : Simple.print lim style ((cell :: row) :: rest) =
    ([corner] ++ repeat corner (Z.to_nat n) ++ [addch newline] ++
     [addwstr (c_str (Simple.col_sep style))] ++
     empty_scope (color_code cell), Throw)).
  { unfold Simple.print. rewrite n_rows_cons, bind_ret. fold n.
    cbn [Simple.print_loop].
    rewrite (simple_values_thrown lim Hlim style Hint Hneg cell row Hmax).
    unfold Simple.sep_row, n_strings.
    replace (Z.to_nat (Simple.cell_width style)) with 0%nat by lia.
    cbn [times]. unfold Simple.corner. fold corner.
    assert (Htimes : forall k,
              times k (bind (ret tt) (fun _ => emit corner)) =
              (repeat corner k, Done tt)).
    { induction k as [| k IH]; cbn [times repeat]; [reflexivity |].
      rewrite IH. reflexivity. }
    rewrite Htimes. cbv [bind emit end_line].
    f_equal. cbn [app]. now rewrite <- app_assoc. }
  split; [exact Hrun |].
  destruct (tidy_simple_print_body lim style n ((cell :: row) :: rest))
    as [_ Hclosed].
  unfold Simple.print. rewrite n_rows_cons, bind_ret. exact Hclosed.
Qed.

Lemma simple_print_negative_cell_width_witness :
  (is_int (Simple.cell_width
             (Simple.MatrixStyle_ctor (-2) 3 (L "-") (L "|") (L "+"))) /\
   Simple.cell_width
     (Simple.MatrixStyle_ctor (-2) 3 (L "-") (L "|") (L "+")) < 0 /\
   wlength (content (Cell_ctor (L "x") 5)) <= wstring_max_size libstdcxx) /\
  Simple.print libstdcxx
    (Simple.MatrixStyle_ctor (-2) 3 (L "-") (L "|") (L "+"))
    [[Cell_ctor (L "x") 5; Cell_ctor (L "y") 6]] =
    ([addwstr (L "+"); addwstr (L "+"); addwstr (L "+"); addch newline;
      addwstr (L "|");
      attron (COLOR_PAIR (Int 5)); attron A_BOLD;
      attroff (COLOR_PAIR Indeterminate); attroff A_BOLD], Throw).
Proof.
  set (style := Simple.MatrixStyle_ctor (-2) 3 (L "-") (L "|") (L "+")).
  assert (Hint : is_int (Simple.cell_width style))
    by (unfold is_int, INT_MIN, INT_MAX; cbn; lia).
  assert (Hneg : Simple.cell_width style < 0) by (cbn; lia).
  assert (Hmax : wlength (content (Cell_ctor (L "x") 5)) <=
                 wstring_max_size libstdcxx) by (vm_compute; discriminate).
  split; [repeat split; try assumption; apply Hint |].
  exact (proj1 (simple_print_negative_cell_width libstdcxx style
                  (Cell_ctor (L "x") 5) [Cell_ctor (L "y") 6] []
                  lp64_libstdcxx Hint Hneg Hmax)).
Defined.
